(** * BMAD v6.3 tool runtime: resolution, access control, dispatch, MCP client

    A shallow embedding of the two modules that [upgrade-bmad-v6.3.mjs]
    installs, [.bmad-core/runtime/tool-runtime.ts] (resolveTool, isAllowed,
    executeTool) and [.bmad-core/utils/mcp-client.ts] (connectMCP and the
    [call] closure of the client it resolves to), followed by the properties
    of the tool invocation core.

    Layout:
    - [JS]          the fragment of JavaScript values and operators the code uses;
    - [Fs]          the file system as seen through fs.existsSync, fs.readdirSync
                    and readYAML;
    - [McpClient]   the WebSocket objects created by connectMCP, their listeners
                    and the promises they settle;
    - [ToolRuntime] resolveTool, isAllowed, executeTool and the execution of the
                    awaits of executeTool against an environment;
    - [Spec]        the notions the specification speaks in (declared allowed
                    list, normalized entry, registry entries, connections);
    - [Scenarios]   concrete installations used by the examples;
    - [ToolHelp]    showToolHelp;
    - [Text]        String.prototype.includes and replace;
    - [Installer]   write, patch and the installer script itself;
    - [Notions]     notions used by the further properties;
    - the lemmas and theorems. *)

From Stdlib Require Import List String Ascii ZArith Lia Bool DecimalString.
Import ListNotations.
Set Warnings "-register-all".
Local Open Scope string_scope.
Local Open Scope Z_scope.

(* ------------------------------------------------------------------ *)
(** ** JavaScript values *)
(* ------------------------------------------------------------------ *)
Module JS.

(** What yaml.load and JSON.parse produce, and what callers pass in: the
    primitives, arrays and plain objects.  Numbers are the integer-valued ones
    (no NaN, no fractions).  An object is its list of own properties; a parsed
    document has no duplicate keys, and lookup takes the first binding. *)
Inductive value : Type :=
| VUndef
| VNull
| VBool (b : bool)
| VNum (n : Z)
| VStr (s : string)
| VArr (items : list value)
| VObj (props : list (string * value)).

(** The exceptions the two modules can raise or let through.  The runtime throws
    plain [Error] objects that differ by their message template; a constructor
    stands for the template and carries the interpolated values. *)
Inductive error : Type :=
| ToolNotFound (toolId : string)
    (* new Error(`Tool not found: ${toolId}`) *)
| AccessDenied (agentId : value) (toolId : string)
    (* new Error(`Access denied: ${agent.id} not authorized for ${toolId}`) *)
| RemoteFailed (toolId : string) (status : Z)
    (* new Error(`Remote tool ${toolId} failed: ${res.status}`) *)
| UnknownToolType (type : value)
    (* new Error(`Unknown tool type: ${tool.tool.type}`) *)
| TypeError
    (* property read on undefined/null, call of something that is not a function *)
| FsError (path : string)
    (* ENOENT, ENOTDIR, EISDIR from fs, or a YAMLException from yaml.load *)
| External (reason : value).
    (* a rejection coming from outside: import(), mod.run, fetch, res.json, the socket *)

Inductive result (A : Type) : Type :=
| Return (a : A)
| Throw (e : error).
Arguments Return {A} a.
Arguments Throw {A} e.

Definition bind {A B : Type} (r : result A) (k : A -> result B) : result B :=
  match r with
  | Return a => k a
  | Throw e => Throw e
  end.

Notation "x <- r ;; k" := (bind r (fun x => k))
  (at level 61, r at next level, right associativity).

Fixpoint mapM {A B : Type} (f : A -> result B) (xs : list A) : result (list B) :=
  match xs with
  | [] => Return []
  | x :: rest => y <- f x ;; ys <- mapM f rest ;; Return (y :: ys)
  end.

Definition nullish (v : value) : bool :=
  match v with
  | VUndef | VNull => true
  | _ => false
  end.

(** ToBoolean. *)
Definition truthy (v : value) : bool :=
  match v with
  | VUndef | VNull => false
  | VBool b => b
  | VNum n => negb (n =? 0)
  | VStr s => negb (s =? "")%string
  | VArr _ | VObj _ => true
  end.

(** [===] and SameValueZero (Array.prototype.includes); without NaN the two
    agree.  Arrays and objects compare by reference.  In executeTool the two
    sides never alias: one comes from the caller (the agent, the tool
    identifier), the other from a document that yaml.load has just built, so
    the comparison of two references is [false].  A direct caller of isAllowed
    who puts one and the same object in the agent's list and in the tool's id
    is not covered. *)
Definition same_value (a b : value) : bool :=
  match a, b with
  | VUndef, VUndef => true
  | VNull, VNull => true
  | VBool x, VBool y => Bool.eqb x y
  | VNum x, VNum y => x =? y
  | VStr x, VStr y => (x =? y)%string
  | _, _ => false
  end.

Fixpoint assoc (k : string) (props : list (string * value)) : option value :=
  match props with
  | [] => None
  | (k', v) :: rest => if (k' =? k)%string then Some v else assoc k rest
  end.

(** A property key that is a canonical array index ("0", "1", "12", not "01"). *)
Definition index_of_key (k : string) : option nat :=
  match NilZero.uint_of_string k with
  | Some u =>
      let n := Nat.of_uint u in
      if (NilZero.string_of_uint (Nat.to_uint n) =? k)%string then Some n else None
  | None => None
  end.

(** [v[k]] for a [v] that is neither undefined nor null.  None of the keys read
    by the code is inherited from a prototype, apart from the methods [map],
    [find] and [includes], which are modelled where they are called. *)
Definition member (v : value) (k : string) : value :=
  match v with
  | VObj props =>
      match assoc k props with
      | Some x => x
      | None => VUndef
      end
  | VArr items =>
      if (k =? "length")%string then VNum (Z.of_nat (List.length items))
      else match index_of_key k with
           | Some n => nth n items VUndef
           | None => VUndef
           end
  | VStr s =>
      if (k =? "length")%string then VNum (Z.of_nat (String.length s))
      else match index_of_key k with
           | Some n =>
               match String.get n s with
               | Some c => VStr (String c EmptyString)
               | None => VUndef
               end
           | None => VUndef
           end
  | _ => VUndef
  end.

(** [v.k]: a TypeError on undefined and null. *)
Definition get (v : value) (k : string) : result value :=
  if nullish v then Throw TypeError else Return (member v k).

(** [v?.k]. *)
Definition get_opt (v : value) (k : string) : value :=
  if nullish v then VUndef else member v k.

Definition decimal (n : Z) : string := NilZero.string_of_int (Z.to_int n).

(** Does the decimal value [v] round to the double [x] (to nearest, ties to
    even)?  [x] is a positive integer that is a double. *)
Definition rounds_to (x v : Z) : bool :=
  let b := Z.log2 x in
  let quarter := 2 ^ (b - 54) in
  let up := 2 * quarter in
  let down := if x =? 2 ^ b then quarter else 2 * quarter in
  let even := Z.even (x / (4 * quarter)) in
  ((x - down <? v) && (v <? x + up))
  || (even && ((v =? x - down) || (v =? x + up))).

(** The fewest digits [s], with their decimal exponent, that denote a value
    rounding to [x]; of two candidates the closer one. *)
Fixpoint shortest (fuel : nat) (k : Z) (x e : Z) : Z * Z :=
  match fuel with
  | O => (x, e)
  | S fuel' =>
      let unit := 10 ^ (e + 1 - k) in
      let lo := x / unit in
      let hi := lo + 1 in
      let lo_ok := rounds_to x (lo * unit) in
      let hi_ok := rounds_to x (hi * unit) in
      if hi_ok && (negb lo_ok || (hi * unit - x <? x - lo * unit)) then
        (if hi =? 10 ^ k then (1, e + 1) else (hi, e))
      else if lo_ok then (lo, e)
      else shortest fuel' (k + 1) x e
  end.

(** Number::toString of an integer-valued double of magnitude 1e21 or more:
    digits, a point after the first one, and the exponent. *)
Definition exponent_form (x : Z) : string :=
  let e := Z.of_nat (String.length (decimal x)) - 1 in
  let '(s, e') := shortest 17 1 x e in
  match decimal s with
  | String d EmptyString => String d ("e+" ++ decimal e')
  | String d rest => String d ("." ++ rest ++ "e+" ++ decimal e')
  | EmptyString => EmptyString
  end.

(** Number::toString on the integer-valued doubles: decimal below 1e21. *)
Definition number_to_string (n : Z) : string :=
  if Z.abs n <? 10 ^ 21 then decimal n
  else (if n <? 0 then "-" else "") ++ exponent_form (Z.abs n).

(** ToString, as applied to a computed property key, in a template literal and
    in [string + x].  An object with a property [toString] of its own (which
    is no function in a parsed document) cannot be converted: TypeError.  An
    array is joined with commas, undefined and null elements giving the empty
    string. *)
Fixpoint ToString (v : value) : result string :=
  match v with
  | VUndef => Return "undefined"
  | VNull => Return "null"
  | VBool true => Return "true"
  | VBool false => Return "false"
  | VNum n => Return (number_to_string n)
  | VStr s => Return s
  | VArr items =>
      parts <- (fix join (xs : list value) : result (list string) :=
                  match xs with
                  | [] => Return []
                  | x :: rest =>
                      part <- (if nullish x then Return "" else ToString x) ;;
                      parts <- join rest ;;
                      Return (part :: parts)
                  end) items ;;
      Return (String.concat "," parts)
  | VObj props =>
      match assoc "toString" props with
      | Some _ => Throw TypeError
      | None => Return "[object Object]"
      end
  end.

(** [v?.[k]]: the key is converted only when [v] is neither undefined nor
    null. *)
Definition get_opt_computed (v k : value) : result value :=
  if nullish v then Return VUndef
  else key <- ToString k ;; Return (member v key).

(** [a || b] on already evaluated operands. *)
Definition or_else (a b : value) : value :=
  if truthy a then a else b.

(** [xs.includes(x)]. *)
Definition includes (xs : list value) (x : value) : bool :=
  existsb (fun y => same_value y x) xs.

End JS.
Export JS.

(* ------------------------------------------------------------------ *)
(** ** The file system *)
(* ------------------------------------------------------------------ *)
Module Fs.

(** A path holds a directory (the names readdirSync lists, in its order) or a
    file.  A file is identified with what [yaml.load(fs.readFileSync(f, "utf8"))]
    makes of it: the parsed document, or the exception the parser raises. *)
Inductive node : Type :=
| Directory (names : list string)
| File (document : result value).

Definition filesystem : Type := string -> option node.

(** fs.existsSync: [false] for anything that is not a path. *)
Definition existsSync (fs : filesystem) (p : value) : bool :=
  match p with
  | VStr path =>
      match fs path with
      | Some _ => true
      | None => false
      end
  | _ => false
  end.

Definition readdirSync (fs : filesystem) (path : string) : result (list string) :=
  match fs path with
  | Some (Directory names) => Return names
  | _ => Throw (FsError path)
  end.

(** function readYAML(file) *)
Definition readYAML (fs : filesystem) (file : string) : result value :=
  match fs file with
  | Some (File document) => document
  | _ => Throw (FsError file)
  end.

(** path.join(dir, name) for a name without separators. *)
Definition path_join (dir name : string) : string :=
  dir ++ "/" ++ name.

End Fs.
Export Fs.

(* ------------------------------------------------------------------ *)
(** ** .bmad-core/utils/mcp-client.ts *)
(* ------------------------------------------------------------------ *)
Module McpClient.
Local Open Scope list_scope.

(** The state of a promise. *)
Inductive outcome (A : Type) : Type :=
| Pending
| Fulfilled (a : A)
| Rejected (e : error).
Arguments Pending {A}.
Arguments Fulfilled {A} a.
Arguments Rejected {A} e.

Definition settled {A : Type} (p : outcome A) : bool :=
  match p with
  | Pending => false
  | _ => true
  end.

(** resolve and reject of a promise: the first settlement wins, later ones
    are ignored. *)
Definition resolve {A : Type} (a : A) (p : outcome A) : outcome A :=
  match p with
  | Pending => Fulfilled a
  | _ => p
  end.

Definition reject {A : Type} (e : error) (p : outcome A) : outcome A :=
  match p with
  | Pending => Rejected e
  | _ => p
  end.

(** What the "ws" socket emits.  A message frame that is JSON is identified
    with [JSON.parse(data.toString())]; [Garbled] is a message frame that is
    not JSON.  [Tick] is no event of the socket: it marks the end of a turn of
    the event loop.  Events that are not separated by a [Tick] are emitted in
    one turn, before any function that awaits a promise is resumed. *)
Inductive net_event : Type :=
| Open
| Message (body : value)
| Error (reason : value)
| Garbled
| Tick.

(** One [new WebSocket(server)] of connectMCP, with everything its closures
    capture.  A frame of [ws_sent] is the object handed to JSON.stringify
    before ws.send.  [ws_connect] is the promise connectMCP returns; it is
    fulfilled with the client [{ call }] of this socket.  [ws_calls] are the
    promises returned by [call], in creation order, and [ws_once] the ones
    whose once("message") listener is still registered. *)
Record socket : Type := {
  ws_server : value;
  ws_namespace : value;
  ws_token : value;
  ws_connect : outcome unit;
  ws_sent : list value;
  ws_calls : list (outcome value);
  ws_once : list nat
}.

Definition AUTH_FILE : string := ".bmad-core/config/mcp-auth.yaml".

(** The first lines of connectMCP:
      let token = null;
      if (fs.existsSync(authFile)) {
        const auth = yaml.load(fs.readFileSync(authFile, "utf8"));
        token = auth?.[server]?.token || null;
      } *)
Definition read_token (fs : filesystem) (server : value) : result value :=
  if existsSync fs (VStr AUTH_FILE) then
    auth <- readYAML fs AUTH_FILE ;;
    entry <- get_opt_computed auth server ;;
    Return (or_else (get_opt entry "token") VNull)
  else Return VNull.

Definition new_socket (server namespace token : value) : socket :=
  {| ws_server := server;
     ws_namespace := namespace;
     ws_token := token;
     ws_connect := Pending;
     ws_sent := [];
     ws_calls := [];
     ws_once := [] |}.

(** connectMCP(server, namespace) up to the return of its promise: the
    credential file is read, then a socket is created, every time.  The client
    is the index of the new socket.  An exception of the synchronous part
    rejects the promise of the async function and creates nothing.  (A
    WebSocket constructor that throws, on an address that is not a URL, is
    seen as a socket whose first event is [Error].) *)
Definition connectMCP (fs : filesystem) (sockets : list socket)
    (server namespace : value) : result (list socket * nat) :=
  token <- read_token fs server ;;
  Return (sockets ++ [new_socket server namespace token], List.length sockets).

Definition auth_message (token : value) : value :=
  VObj [("action", VStr "auth"); ("token", token)].

Definition invoke_message (namespace toolId payload : value) : value :=
  VObj [("action", VStr "invoke"); ("namespace", namespace);
        ("toolId", toolId); ("payload", payload)].

(** ws.send(JSON.stringify(frame)) *)
Definition send (frame : value) (s : socket) : socket :=
  {| ws_server := ws_server s;
     ws_namespace := ws_namespace s;
     ws_token := ws_token s;
     ws_connect := ws_connect s;
     ws_sent := ws_sent s ++ [frame];
     ws_calls := ws_calls s;
     ws_once := ws_once s |}.

(** ws.on("open", () => { if (token) ws.send(auth); resolve({ call }) }) *)
Definition on_open (s : socket) : socket :=
  let s1 := if truthy (ws_token s) then send (auth_message (ws_token s)) s else s in
  {| ws_server := ws_server s1;
     ws_namespace := ws_namespace s1;
     ws_token := ws_token s1;
     ws_connect := resolve tt (ws_connect s1);
     ws_sent := ws_sent s1;
     ws_calls := ws_calls s1;
     ws_once := ws_once s1 |}.

(** ws.on("error", reject): [reject] is the one of the promise of connectMCP. *)
Definition on_error (reason : value) (s : socket) : socket :=
  {| ws_server := ws_server s;
     ws_namespace := ws_namespace s;
     ws_token := ws_token s;
     ws_connect := reject (External reason) (ws_connect s);
     ws_sent := ws_sent s;
     ws_calls := ws_calls s;
     ws_once := ws_once s |}.

(** [res(body)] on the call promise number [i]. *)
Fixpoint settle_call (i : nat) (body : value) (calls : list (outcome value))
    : list (outcome value) :=
  match calls, i with
  | [], _ => []
  | p :: rest, O => resolve body p :: rest
  | p :: rest, S j => p :: settle_call j body rest
  end.

(** [res(body)] by each of the listeners, in the order of registration. *)
Definition settle_all (body : value) (listeners : list nat)
    (calls : list (outcome value)) : list (outcome value) :=
  fold_left (fun calls i => settle_call i body calls) listeners calls.

(** emit("message", data): every listener registered with once is removed and
    run; each one is [data => res(JSON.parse(data.toString()))]. *)
Definition on_message (body : value) (s : socket) : socket :=
  {| ws_server := ws_server s;
     ws_namespace := ws_namespace s;
     ws_token := ws_token s;
     ws_connect := ws_connect s;
     ws_sent := ws_sent s;
     ws_calls := settle_all body (ws_once s) (ws_calls s);
     ws_once := [] |}.

(** emit("message", data) for a frame that is not JSON: the listener that was
    registered first is removed (once) and run, JSON.parse throws out of it,
    so its promise is not settled and the listeners after it are not run and
    stay registered. *)
Definition on_garbled (s : socket) : socket :=
  {| ws_server := ws_server s;
     ws_namespace := ws_namespace s;
     ws_token := ws_token s;
     ws_connect := ws_connect s;
     ws_sent := ws_sent s;
     ws_calls := ws_calls s;
     ws_once := tl (ws_once s) |}.

Definition handle (ev : net_event) (s : socket) : socket :=
  match ev with
  | Open => on_open s
  | Message body => on_message body s
  | Error reason => on_error reason s
  | Garbled => on_garbled s
  | Tick => s
  end.

(** call: (toolId, payload) => new Promise(res => {
            ws.send(JSON.stringify({ action: "invoke", namespace, toolId, payload }));
            ws.once("message", data => res(JSON.parse(data.toString()))); })
    The promise returned is the one at index [length (ws_calls s)]. *)
Definition call (toolId payload : value) (s : socket) : socket :=
  let s1 := send (invoke_message (ws_namespace s) toolId payload) s in
  {| ws_server := ws_server s1;
     ws_namespace := ws_namespace s1;
     ws_token := ws_token s1;
     ws_connect := ws_connect s1;
     ws_sent := ws_sent s1;
     ws_calls := ws_calls s1 ++ [Pending];
     ws_once := ws_once s1 ++ [List.length (ws_calls s1)] |}.

(** The promise returned by the [n]-th call on the socket. *)
Definition call_promise (n : nat) (s : socket) : outcome value :=
  nth n (ws_calls s) Pending.

(** What can happen to a socket after connectMCP created it: the network emits
    an event, or somebody who holds the client calls it.  The client exists
    only once the open handler has resolved the promise. *)
Inductive step : socket -> socket -> Prop :=
| step_event (ev : net_event) (s : socket) :
    step s (handle ev s)
| step_call (toolId payload : value) (s : socket) :
    ws_connect s = Fulfilled tt ->
    step s (call toolId payload s).

Inductive steps : socket -> socket -> Prop :=
| steps_refl (s : socket) : steps s s
| steps_snoc (s1 s2 s3 : socket) : steps s1 s2 -> step s2 s3 -> steps s1 s3.

(** Awaiting a promise of the socket: the events the network will emit are
    handled in order until the promise is settled; the events left over are
    returned. *)
Fixpoint pump (is_done : socket -> bool) (events : list net_event) (s : socket)
    : socket * list net_event :=
  if is_done s then (s, events)
  else match events with
       | [] => (s, [])
       | ev :: rest => pump is_done rest (handle ev s)
       end.

(** The rest of the turn in which an awaited promise was fulfilled: the
    events up to the next [Tick] are handled before the awaiting function
    goes on. *)
Fixpoint drain (events : list net_event) (s : socket)
    : socket * list net_event :=
  match events with
  | [] => (s, [])
  | Tick :: rest => (s, rest)
  | ev :: rest => drain rest (handle ev s)
  end.

End McpClient.
Export McpClient.

(* ------------------------------------------------------------------ *)
(** ** .bmad-core/runtime/tool-runtime.ts *)
(* ------------------------------------------------------------------ *)
Module ToolRuntime.
Local Open Scope list_scope.

Definition TOOL_DIR : string := ".bmad-core/tools".
Definition REGISTRY_PATH : string := ".bmad-core/data/tool-registry.yaml".
Definition ORCHESTRATOR : string := "bmad-orchestrator".

(** files.find(f => f.startsWith(toolId)) *)
Definition find_file (toolId : string) (files : list string) : option string :=
  find (fun f => String.prefix toolId f) files.

(** entries.find(t => t.id === toolId): [undefined] when nothing matches. *)
Fixpoint find_entry (toolId : string) (entries : list value) : result value :=
  match entries with
  | [] => Return VUndef
  | t :: rest =>
      id <- get t "id" ;;
      if same_value id (VStr toolId) then Return t else find_entry toolId rest
  end.

(** reg.registry?.find(t => t.id === toolId) *)
Definition registry_find (toolId : string) (reg : value) : result value :=
  registry <- get reg "registry" ;;
  if nullish registry then Return VUndef
  else match registry with
       | VArr entries => find_entry toolId entries
       | _ => Throw TypeError
       end.

(** The first block of resolveTool; [Some] is its [return]. *)
Definition from_directory (fs : filesystem) (toolId : string) : result (option value) :=
  if existsSync fs (VStr TOOL_DIR) then
    files <- readdirSync fs TOOL_DIR ;;
    match find_file toolId files with
    | Some file =>
        if truthy (VStr file) then
          tool <- readYAML fs (path_join TOOL_DIR file) ;; Return (Some tool)
        else Return None
    | None => Return None
    end
  else Return None.

(** The second block of resolveTool; [Some] is its [return]. *)
Definition from_registry (fs : filesystem) (toolId : string) : result (option value) :=
  if existsSync fs (VStr REGISTRY_PATH) then
    reg <- readYAML fs REGISTRY_PATH ;;
    entry <- registry_find toolId reg ;;
    if truthy entry && existsSync fs (member entry "file") then
      match member entry "file" with
      | VStr file => tool <- readYAML fs file ;; Return (Some tool)
      | _ => Return None
      end
    else Return None
  else Return None.

(** export function resolveTool(toolId) *)
Definition resolveTool (fs : filesystem) (toolId : string) : result value :=
  in_dir <- from_directory fs toolId ;;
  match in_dir with
  | Some tool => Return tool
  | None =>
      in_reg <- from_registry fs toolId ;;
      match in_reg with
      | Some tool => Return tool
      | None => Throw (ToolNotFound toolId)
      end
  end.

(** t => (t.id || t) *)
Definition normalize (t : value) : result value :=
  id <- get t "id" ;; Return (or_else id t).

(** agent.tools?.allowed?.map(t => (t.id || t)) || [], for an agent that is
    neither undefined nor null. *)
Definition allowed_of (agent : value) : result (list value) :=
  let allowed := get_opt (get_opt agent "tools") "allowed" in
  if nullish allowed then Return []
  else match allowed with
       | VArr entries => mapM normalize entries
       | _ => Throw TypeError
       end.

(** export function isAllowed(agent, tool) *)
Definition isAllowed (agent tool : value) : result bool :=
  id <- get agent "id" ;;
  if same_value id (VStr ORCHESTRATOR) then Return true
  else
    allowed <- allowed_of agent ;;
    section <- get tool "tool" ;;
    Return (includes allowed (get_opt section "id")).

(** What fetch resolves to: the status line and the outcome of [res.json()]. *)
Record response : Type := {
  status : Z;
  json : outcome value
}.

(** Response.ok of the Fetch API (node-fetch): the status is in 200..299. *)
Definition ok (res : response) : bool :=
  (200 <=? status res) && (status res <? 300).

(** An imported module, seen through [mod.run(payload)] (a rejection with
    TypeError when it exports no such function).  Only the outcome of the
    promise is kept: what [run] does to the files or the network besides is
    outside the model, so nothing is claimed about the process after a local
    tool has run except the log of the import and of the call. *)
Definition module : Type := value -> outcome value.

(** The client [{ call }] that connectMCP resolves to: the socket it closes over. *)
Definition client : Type := nat.

(** The operations executeTool awaits, with the type of what they resolve to. *)
Inductive op : Type -> Type :=
| Import (specifier : value) : op module
    (* import(tool.tool.entrypoint) *)
| Run (m : module) (payload : value) : op value
    (* mod.run(payload) *)
| Fetch (url body : value) : op response
    (* fetch(url, { method: "POST", headers: { "Content-Type": "application/json" },
                    body: JSON.stringify(body) }) *)
| Json (res : response) : op value
    (* res.json() *)
| Connect (server namespace : value) : op client
    (* connectMCP(server, namespace) *)
| Call (c : client) (toolId payload : value) : op value.
    (* client.call(toolId, payload) *)

(** The body of an async function without try/catch: it ends with a value or
    an exception, or awaits an operation and goes on with what it resolved to;
    a rejected await ends the function with that rejection. *)
Inductive proc : Type :=
| Done (r : result value)
| Await {X : Type} (o : op X) (k : X -> proc).

(** The [switch (tool.tool.type)] of executeTool. *)
Definition dispatch (tool : value) (toolId : string) (payload : value) : proc :=
  match get tool "tool" with
  | Throw e => Done (Throw e)
  | Return section =>
      match get section "type" with
      | Throw e => Done (Throw e)
      | Return type =>
          if same_value type (VStr "local") then
            Await (Import (member section "entrypoint")) (fun loaded =>
            Await (Run loaded payload) (fun out => Done (Return out)))
          else if same_value type (VStr "remote") then
            Await (Fetch (member section "entrypoint") payload) (fun res =>
            if negb (ok res) then Done (Throw (RemoteFailed toolId (status res)))
            else Await (Json res) (fun out => Done (Return out)))
          else if same_value type (VStr "mcp") then
            Await (Connect (member section "mcpServer") (member section "entrypoint"))
              (fun c =>
            Await (Call c (VStr toolId) payload) (fun out => Done (Return out)))
          else Done (Throw (UnknownToolType type))
      end
  end.

(** The default of the parameter [payload = {}]. *)
Definition default_payload (payload : value) : value :=
  match payload with
  | VUndef => VObj []
  | _ => payload
  end.

(** export async function executeTool(agent, toolId, payload = {}).  The
    message of the access-denied error interpolates agent.id, which fails for
    an id that cannot be converted to a string. *)
Definition executeTool (fs : filesystem) (agent : value) (toolId : string)
    (payload : value) : proc :=
  let payload := default_payload payload in
  match resolveTool fs toolId with
  | Throw e => Done (Throw e)
  | Return tool =>
      match isAllowed agent tool with
      | Throw e => Done (Throw e)
      | Return false =>
          match ToString (member agent "id") with
          | Throw e => Done (Throw e)
          | Return _ => Done (Throw (AccessDenied (member agent "id") toolId))
          end
      | Return true => dispatch tool toolId payload
      end
  end.

(** What a transport adapter did to the outside; the frames sent on sockets are
    kept in the sockets. *)
Inductive effect : Type :=
| Imported (specifier : value)
| Ran (payload : value)
| Posted (url body : value).

(** The process and its surroundings: the files, what import and fetch answer,
    what the network will emit on the n-th socket created, the sockets created
    so far and the adapters' effects so far. *)
Record world : Type := {
  w_fs : filesystem;
  w_import : value -> outcome module;
  w_fetch : value -> value -> outcome response;
  w_network : nat -> list net_event;
  w_sockets : list socket;
  w_log : list effect
}.

Definition log (e : effect) (w : world) : world :=
  {| w_fs := w_fs w;
     w_import := w_import w;
     w_fetch := w_fetch w;
     w_network := w_network w;
     w_sockets := w_sockets w;
     w_log := w_log w ++ [e] |}.

Fixpoint replace_nth {A : Type} (n : nat) (x : A) (xs : list A) : list A :=
  match xs, n with
  | [], _ => []
  | _ :: rest, O => x :: rest
  | y :: rest, S m => y :: replace_nth m x rest
  end.

(** The socket [c] has become [s] and the network still has [events] for it. *)
Definition with_socket (c : nat) (s : socket) (events : list net_event)
    (sockets : list socket) (w : world) : world :=
  {| w_fs := w_fs w;
     w_import := w_import w;
     w_fetch := w_fetch w;
     w_network := fun i => if Nat.eqb i c then events else w_network w i;
     w_sockets := replace_nth c s sockets;
     w_log := w_log w |}.

(** [await connectMCP(server, namespace)].  The caller is resumed at the end
    of the turn in which the socket opened: what the socket emits in the rest
    of that turn finds no listener of a call yet. *)
Definition perform_connect (w : world) (server namespace : value)
    : world * outcome client :=
  match connectMCP (w_fs w) (w_sockets w) server namespace with
  | Throw e => (w, Rejected e)
  | Return (sockets, c) =>
      let '(s, events) :=
        pump (fun s => settled (ws_connect s)) (w_network w c)
             (nth c sockets (new_socket server namespace VNull)) in
      match ws_connect s with
      | Pending => (with_socket c s events sockets w, Pending)
      | Fulfilled _ =>
          let '(s', events') := drain events s in
          (with_socket c s' events' sockets w, Fulfilled c)
      | Rejected e => (with_socket c s events sockets w, Rejected e)
      end
  end.

(** [await client.call(toolId, payload)] *)
Definition perform_call (w : world) (c : client) (toolId payload : value)
    : world * outcome value :=
  match nth_error (w_sockets w) c with
  | None => (w, Rejected TypeError)
  | Some s0 =>
      let n := List.length (ws_calls s0) in
      let '(s, events) :=
        pump (fun s => settled (call_promise n s)) (w_network w c)
             (call toolId payload s0) in
      (with_socket c s events (w_sockets w) w, call_promise n s)
  end.

Definition perform {X : Type} (w : world) (o : op X) : world * outcome X :=
  match o in op X return world * outcome X with
  | Import specifier => (log (Imported specifier) w, w_import w specifier)
  | Run m payload => (log (Ran payload) w, m payload)
  | Fetch url body => (log (Posted url body) w, w_fetch w url body)
  | Json res => (w, json res)
  | Connect server namespace => perform_connect w server namespace
  | Call c toolId payload => perform_call w c toolId payload
  end.

(** The promise an async function returns, once everything the surroundings
    had to deliver has been delivered. *)
Fixpoint run (w : world) (p : proc) : world * outcome value :=
  match p with
  | Done (Return v) => (w, Fulfilled v)
  | Done (Throw e) => (w, Rejected e)
  | Await o k =>
      let '(w', r) := perform w o in
      match r with
      | Fulfilled x => run w' (k x)
      | Rejected e => (w', Rejected e)
      | Pending => (w', Pending)
      end
  end.

(** A call of executeTool in the world [w]. *)
Definition execute (w : world) (agent : value) (toolId : string) (payload : value)
    : world * outcome value :=
  run w (executeTool (w_fs w) agent toolId payload).

End ToolRuntime.
Export ToolRuntime.

(* ------------------------------------------------------------------ *)
(** ** The words of the specification *)
(* ------------------------------------------------------------------ *)
Module Spec.
Local Open Scope list_scope.

(** "each allowed entry normalized to its id field if it is an object, else to
    itself" *)
Definition entry_id (e : value) : value :=
  match e with
  | VObj _ => member e "id"
  | _ => e
  end.

(** The agent declares the allowed list [entries]: its [tools.allowed] is that
    array, or it has none and [entries] is empty. *)
Definition declares_allowed (agent : value) (entries : list value) : Prop :=
  nullish agent = false /\
  (get_opt (get_opt agent "tools") "allowed" = VArr entries \/
   (nullish (get_opt (get_opt agent "tools") "allowed") = true /\ entries = [])).


(** The identifier a definition declares: [tool.tool?.id]. *)
Definition declared_id (tool : value) : result value :=
  section <- get tool "tool" ;; Return (get_opt section "id").

(** The tool-definitions directory lists [files]: it is a directory with these
    names, or it does not exist and [files] is empty. *)
Definition tool_files (fs : filesystem) (files : list string) : Prop :=
  fs TOOL_DIR = Some (Directory files) \/ (fs TOOL_DIR = None /\ files = []).

(** The registry index holds [entries]: the file parses to a document whose
    [registry] is that list of entries, none of them null, or there is no index
    (no file, or no [registry] key) and [entries] is empty. *)
Definition registry_entries (fs : filesystem) (entries : list value) : Prop :=
  Forall (fun e => nullish e = false) entries /\
  ((fs REGISTRY_PATH = None /\ entries = []) \/
   (exists reg, fs REGISTRY_PATH = Some (File (Return reg)) /\
                nullish reg = false /\
                (member reg "registry" = VArr entries \/
                 (nullish (member reg "registry") = true /\ entries = [])))).

(** The first entry of the index whose id is [toolId]. *)
Definition first_entry (toolId : string) (entries : list value) : option value :=
  find (fun e => same_value (member e "id") (VStr toolId)) entries.


(** A call executeTool(agent, toolId, ...) that reaches the MCP adapter, for a
    tool served by [server]. *)
Definition reaches_mcp (fs : filesystem) (agent : value) (toolId server : string)
    : Prop :=
  exists tool section,
    resolveTool fs toolId = Return tool /\
    isAllowed agent tool = Return true /\
    get tool "tool" = Return section /\
    member section "type" = VStr "mcp" /\
    member section "mcpServer" = VStr server.

(** What holds of every socket created with a token: nothing is sent before
    the connection promise is fulfilled, and the first frame is the
    authentication message. *)
Definition authenticated_first (token : value) (s : socket) : Prop :=
  ws_token s = token /\
  (ws_connect s = Fulfilled tt -> ws_sent s <> []) /\
  (forall frame rest, ws_sent s = frame :: rest -> frame = auth_message token).

(** The sockets of the process that were opened to [server]. *)
Definition connections_to (server : string) (w : world) : nat :=
  List.length
    (filter (fun s => same_value (ws_server s) (VStr server)) (w_sockets w)).

End Spec.
Export Spec.

(* ------------------------------------------------------------------ *)
(** ** Concrete installations *)
(* ------------------------------------------------------------------ *)
Module Scenarios.
Local Open Scope list_scope.

(** .bmad-core/tools/hello-world.md of the installer: the fields the runtime
    reads, and some of the others. *)
Definition hello_world : value :=
  VObj [("tool", VObj [("id", VStr "hello-world");
                       ("name", VStr "Hello World");
                       ("title", VStr "Example Local Tool");
                       ("type", VStr "local");
                       ("entrypoint", VStr "./bmad-core/runtime/tools/hello-world.js");
                       ("description", VStr "Demonstration tool that prints a message.");
                       ("version", VStr "1.0.0")]);
        ("documentation", VObj [("usage", VStr "@dev: *tool hello-world")])].

(** The MCP tool of the technical documentation. *)
Definition vision_processor : value :=
  VObj [("tool", VObj [("id", VStr "vision-processor");
                       ("type", VStr "mcp");
                       ("mcpServer", VStr "wss://mcp.bmad.ai");
                       ("entrypoint", VStr "vision-tools")])].

(** A remote tool. *)
Definition api_linter : value :=
  VObj [("tool", VObj [("id", VStr "api-linter");
                       ("type", VStr "remote");
                       ("entrypoint", VStr "https://lint.bmad.ai/run")])].

Definition registry_index : value :=
  VObj [("version", VNum 1);
        ("registry", VArr [VObj [("id", VStr "system-analyzer");
                                 ("file", VStr ".bmad-core/tools/system-analyzer.md")];
                           VObj [("id", VStr "legacy-vision");
                                 ("file", VStr "mcp/vision-processor.md")]])].

Definition mcp_auth : value :=
  VObj [("wss://mcp.bmad.ai", VObj [("token", VStr "s3cret")])].

Definition files : filesystem :=
  fun path =>
    if (path =? ".bmad-core/tools")%string then
      Some (Directory ["api-linter.md"; "hello-world.md"; "vision-processor.md"])
    else if (path =? ".bmad-core/tools/api-linter.md")%string then
      Some (File (Return api_linter))
    else if (path =? ".bmad-core/tools/hello-world.md")%string then
      Some (File (Return hello_world))
    else if (path =? ".bmad-core/tools/vision-processor.md")%string then
      Some (File (Return vision_processor))
    else if (path =? "mcp/vision-processor.md")%string then
      Some (File (Return vision_processor))
    else if (path =? ".bmad-core/data/tool-registry.yaml")%string then
      Some (File (Return registry_index))
    else if (path =? ".bmad-core/config/mcp-auth.yaml")%string then
      Some (File (Return mcp_auth))
    else None.

(** The agent of the technical documentation, and one whose profile has no
    tools section. *)
Definition architect : value :=
  VObj [("id", VStr "architect");
        ("name", VStr "System Architect");
        ("type", VStr "core");
        ("tools", VObj [("allowed", VArr [VStr "system-analyzer"; VStr "hello-world"]);
                        ("default", VArr [VStr "hello-world"])])].


Definition analyst : value :=
  VObj [("id", VStr "analyst");
        ("tools", VObj [("allowed", VArr [VObj [("id", VStr "vision-processor")];
                                          VStr "api-linter"])])].

Definition orchestrator : value :=
  VObj [("id", VStr "bmad-orchestrator")].

(** .bmad-core/runtime/tools/hello-world.js *)
Definition hello_module : module :=
  fun _ => Fulfilled (VObj [("message", VStr "Hello from BMAD Tools!")]).

(** The surroundings: the hello-world module loads, the linter answers with
    the given response, and the MCP server behaves as [network] says. *)
Definition installation (res : response) (network : nat -> list net_event) : world :=
  {| w_fs := files;
     w_import := fun specifier =>
       if same_value specifier (VStr "./bmad-core/runtime/tools/hello-world.js")
       then Fulfilled hello_module
       else Rejected (External (VStr "ERR_MODULE_NOT_FOUND"));
     w_fetch := fun url _ =>
       if same_value url (VStr "https://lint.bmad.ai/run")
       then Fulfilled res
       else Rejected (External (VStr "ENOTFOUND"));
     w_network := network;
     w_sockets := [];
     w_log := [] |}.

Definition internal_error : response :=
  {| status := 500; json := Fulfilled (VObj [("error", VStr "boom")]) |}.

Definition lint_report : response :=
  {| status := 200; json := Fulfilled (VObj [("warnings", VNum 0)]) |}.

(** A server that accepts the connection and, in a later turn, echoes the
    payload of an invoke. *)
Definition echo (payload : value) : nat -> list net_event :=
  fun _ => [Open; Tick; Message (VObj [("received", payload)])].

(** A server that accepts the connection and, in a later turn, fails. *)
Definition failing : nat -> list net_event :=
  fun _ => [Open; Tick; Error (VStr "ECONNRESET")].

End Scenarios.

(* ------------------------------------------------------------------ *)
(** ** showToolHelp *)
(* ------------------------------------------------------------------ *)
Module ToolHelp.
Local Open Scope list_scope.

Definition nl : string := String (ascii_of_nat 10) EmptyString.

(** The line that an optional section of the documentation adds. *)
Definition optional_line (label : string) (x : value) : result (list value) :=
  if truthy x then
    text <- ToString x ;; Return [VStr (nl ++ label ++ nl ++ text)%string]
  else Return [].

(** export function showToolHelp(toolId): the arguments of its console.log
    calls, in order, and the exception that ended the call, if any.  A
    template literal and [string + x] both apply ToString to the value. *)
Definition showToolHelp (fs : filesystem) (toolId : string)
    : list value * option error :=
  match resolveTool fs toolId with
  | Throw e => ([], Some e)
  | Return tool =>
      match get tool "documentation" with
      | Throw e => ([], Some e)
      | Return documentation =>
          let doc := or_else documentation (VObj []) in
          match (section <- get tool "tool" ;;
                 title <- get section "title" ;;
                 ToString (or_else title (member section "name"))) with
          | Throw e => ([], Some e)
          | Return heading =>
              let line1 := VStr ("=== " ++ heading ++ " ===")%string in
              let line2 := or_else (member doc "description")
                                   (VStr "No description provided.") in
              match optional_line "Usage:" (member doc "usage") with
              | Throw e => ([line1; line2], Some e)
              | Return usage =>
                  match optional_line "Example:" (member doc "example") with
                  | Throw e => ([line1; line2] ++ usage, Some e)
                  | Return example => ([line1; line2] ++ usage ++ example, None)
                  end
              end
          end
      end
  end.

End ToolHelp.
Export ToolHelp.

(* ------------------------------------------------------------------ *)
(** ** String.prototype.includes and String.prototype.replace *)
(* ------------------------------------------------------------------ *)
Module Text.

(** [s.slice(n)] *)
Fixpoint drop (n : nat) (s : string) : string :=
  match n, s with
  | O, _ => s
  | S m, EmptyString => EmptyString
  | S m, String _ rest => drop m rest
  end.

(** The first occurrence of [pat] in [s] (indexOf): what precedes it and what
    follows it. *)
Fixpoint split_at (pat s : string) : option (string * string) :=
  if String.prefix pat s then Some (EmptyString, drop (String.length pat) s)
  else match s with
       | EmptyString => None
       | String c rest =>
           match split_at pat rest with
           | Some (before, after) => Some (String c before, after)
           | None => None
           end
       end.

(** [s.includes(pat)] *)
Definition str_includes (pat s : string) : bool :=
  match split_at pat s with
  | Some _ => true
  | None => false
  end.

(** GetSubstitution for a pattern that is a string (no capture groups): in the
    replacement text [$$] is a dollar, [$&] the matched text, [$`] what
    precedes the match and [$'] what follows it; any other dollar stays. *)
Fixpoint expand (matched before after repl : string) : string :=
  match repl with
  | EmptyString => EmptyString
  | String c tail =>
      if Ascii.eqb c "$" then
        match tail with
        | String d rest =>
            if Ascii.eqb d "$" then String "$" (expand matched before after rest)
            else if Ascii.eqb d "&" then matched ++ expand matched before after rest
            else if Ascii.eqb d "`" then before ++ expand matched before after rest
            else if Ascii.eqb d "'" then after ++ expand matched before after rest
            else String c (expand matched before after tail)
        | EmptyString => String c EmptyString
        end
      else String c (expand matched before after tail)
  end.

(** [s.replace(pat, repl)] for a string [pat]: the first occurrence only. *)
Definition str_replace (s pat repl : string) : string :=
  match split_at pat s with
  | Some (before, after) => before ++ expand pat before after repl ++ after
  | None => s
  end.

(** No dollar sign in the text. *)
Fixpoint dollar_free (s : string) : bool :=
  match s with
  | EmptyString => true
  | String c rest => negb (Ascii.eqb c "$") && dollar_free rest
  end.

End Text.
Export Text.

(* ------------------------------------------------------------------ *)
(** ** The installer: write, patch and the script *)
(* ------------------------------------------------------------------ *)
Module Installer.
Local Open Scope list_scope.

(** The regular files by path.  Directories are not kept: mkdirSync with
    [recursive] and writeFileSync are taken to succeed. *)
Definition disk : Type := string -> option string.

(** The lines of the console, by what they say. *)
Inductive message : Type :=
| Starting                (* "Starting BMAD v6.3 Upgrade..." *)
| Wrote (file : string)   (* write: the check mark and the file *)
| ToolsSectionExists      (* patch: "tools section already exists" *)
| Patched (file : string) (* patch: "Patched" and the file *)
| SchemaNotFound          (* "agent-schema.yaml not found; skipping patch" *)
| Upgraded                (* "BMAD successfully upgraded to v6.3" *)
| Includes.               (* "Includes: tool access control, ..." *)

Record machine : Type := {
  files : disk;
  console : list message
}.

Definition store (file content : string) (m : machine) : machine :=
  {| files := fun p => if (p =? file)%string then Some content else files m p;
     console := console m |}.

Definition say (msg : message) (m : machine) : machine :=
  {| files := files m; console := console m ++ [msg] |}.

(** fs.existsSync *)
Definition exists_file (m : machine) (file : string) : bool :=
  match files m file with
  | Some _ => true
  | None => false
  end.

(** function patch(file, marker, insert) *)
Definition patch (m : machine) (file marker insert : string) : result machine :=
  match files m file with
  | None => Throw (FsError file)
  | Some content =>
      if str_includes "tools:" content then Return (say ToolsSectionExists m)
      else
        let updated := str_replace content marker (marker ++ nl ++ insert)%string in
        Return (say (Patched file) (store file updated m))
  end.

Definition TOOL_SCHEMA : string := ".bmad-core/schema/tool-schema.yaml".
Definition TOOL_RUNTIME : string := ".bmad-core/runtime/tool-runtime.ts".
Definition MCP_CLIENT : string := ".bmad-core/utils/mcp-client.ts".
Definition TOOL_REGISTRY : string := ".bmad-core/data/tool-registry.yaml".
Definition AGENT_SCHEMA : string := ".bmad-core/schema/agent-schema.yaml".
Definition CREATE_TOOL : string := "bmad-builder/workflows/create-tool.mjs".
Definition HELLO_WORLD_MD : string := ".bmad-core/tools/hello-world.md".
Definition HELLO_WORLD_JS : string := ".bmad-core/runtime/tools/hello-world.js".
Definition README : string := "BMAD-v6.3-UPDATE-README.md".

(** const marker, const insert of the fifth step. *)
Definition MARKER : string := "dependencies:".
Definition INSERT : string :=
  (nl ++ "  tools:" ++ nl
      ++ "    type: map" ++ nl
      ++ "    description: Tool access configuration" ++ nl
      ++ "    fields:" ++ nl
      ++ "      allowed:" ++ nl
      ++ "        type: list" ++ nl
      ++ "      default:" ++ nl
      ++ "        type: list" ++ nl)%string.

(** The texts of the eight template literals that the script writes. *)
Record templates : Type := {
  tool_schema : string;
  tool_runtime : string;
  mcp_client : string;
  tool_registry : string;
  create_tool : string;
  hello_world_md : string;
  hello_world_js : string;
  readme : string
}.

Section Script.

(** String.prototype.trim *)
Variable trim : string -> string.
Variable texts : templates.

(** function write(file, text) *)
Definition write (m : machine) (file text : string) : machine :=
  say (Wrote file) (store file (trim text ++ nl)%string m).

(** The script, from its first console.log to its last. *)
Definition install (m : machine) : result machine :=
  let m := say Starting m in
  let m := write m TOOL_SCHEMA (tool_schema texts) in
  let m := write m TOOL_RUNTIME (tool_runtime texts) in
  let m := write m MCP_CLIENT (mcp_client texts) in
  let m := if exists_file m TOOL_REGISTRY then m
           else write m TOOL_REGISTRY (tool_registry texts) in
  m <- (if exists_file m AGENT_SCHEMA then patch m AGENT_SCHEMA MARKER INSERT
        else Return (say SchemaNotFound m)) ;;
  let m := write m CREATE_TOOL (create_tool texts) in
  let m := write m HELLO_WORLD_MD (hello_world_md texts) in
  let m := write m HELLO_WORLD_JS (hello_world_js texts) in
  let m := write m README (readme texts) in
  Return (say Includes (say Upgraded m)).

End Script.

End Installer.
Export Installer.

(* ------------------------------------------------------------------ *)
(** ** Notions for the further properties *)
(* ------------------------------------------------------------------ *)
Module Notions.
Local Open Scope list_scope.

(** A frame of the form {action: "invoke", ...}. *)
Definition is_invoke (frame : value) : bool :=
  same_value (member frame "action") (VStr "invoke").

(** The states a socket created by connectMCP can be in. *)
Definition reachable (s : socket) : Prop :=
  exists server namespace token, steps (new_socket server namespace token) s.

(** The registered listeners belong to promises of calls that are pending. *)
Definition listeners_ok (s : socket) : Prop :=
  forall n,
    In n (ws_once s) ->
    (n < List.length (ws_calls s))%nat /\ call_promise n s = Pending.

(** No promise of a call is rejected. *)
Definition no_rejection (s : socket) : Prop :=
  forall n e, call_promise n s <> Rejected e.

(** The number of invoke frames sent on the socket. *)
Definition invokes (s : socket) : nat :=
  List.length (filter is_invoke (ws_sent s)).

(** Every frame sent is an invoke frame of the socket's namespace. *)
Definition only_invokes (s : socket) : Prop :=
  Forall (fun frame => exists toolId payload,
            frame = invoke_message (ws_namespace s) toolId payload)
         (ws_sent s).

(** What patch leaves in a file that held [content]. *)
Definition patched (content marker insert : string) : string :=
  if str_includes "tools:" content then content
  else str_replace content marker (marker ++ nl ++ insert)%string.

(** The value that showToolHelp puts in the heading: the title, or the name
    when there is no title. *)
Definition heading_of (section : value) : value :=
  or_else (member section "title") (member section "name").

(** What the script leaves on a disk [d]: eight files hold their trimmed text,
    an existing registry and every other file are kept, and an existing agent
    schema is patched. *)
Definition installed (trim : string -> string) (texts : templates) (d : disk)
    : disk :=
  fun p =>
    if (p =? README)%string then Some (trim (readme texts) ++ nl)%string
    else if (p =? HELLO_WORLD_JS)%string then
      Some (trim (hello_world_js texts) ++ nl)%string
    else if (p =? HELLO_WORLD_MD)%string then
      Some (trim (hello_world_md texts) ++ nl)%string
    else if (p =? CREATE_TOOL)%string then
      Some (trim (create_tool texts) ++ nl)%string
    else if (p =? AGENT_SCHEMA)%string then
      match d AGENT_SCHEMA with
      | Some content => Some (patched content MARKER INSERT)
      | None => None
      end
    else if (p =? TOOL_REGISTRY)%string then
      match d TOOL_REGISTRY with
      | Some content => Some content
      | None => Some (trim (tool_registry texts) ++ nl)%string
      end
    else if (p =? MCP_CLIENT)%string then
      Some (trim (mcp_client texts) ++ nl)%string
    else if (p =? TOOL_RUNTIME)%string then
      Some (trim (tool_runtime texts) ++ nl)%string
    else if (p =? TOOL_SCHEMA)%string then
      Some (trim (tool_schema texts) ++ nl)%string
    else d p.

End Notions.
Export Notions.

(* ------------------------------------------------------------------ *)
(** ** Values and operators *)
(* ------------------------------------------------------------------ *)
Section ValueFacts.
Local Open Scope list_scope.

Lemma same_value_true (a b : value) : same_value a b = true -> a = b.
Proof.
  destruct a, b; simpl; try discriminate; intros H; try reflexivity.
  - apply Bool.eqb_prop in H. now subst.
  - apply Z.eqb_eq in H. now subst.
  - apply String.eqb_eq in H. now subst.
Qed.

Lemma same_value_refl_str (s : string) : same_value (VStr s) (VStr s) = true.
Proof. simpl. apply String.eqb_refl. Qed.

Lemma same_value_distinct (a b : value) : a <> b -> same_value a b = false.
Proof.
  intros Hne. destruct (same_value a b) eqn:E; [|reflexivity].
  apply same_value_true in E. contradiction.
Qed.

Lemma get_not_nullish (v : value) (k : string) :
  nullish v = false -> get v k = Return (member v k).
Proof. unfold get. now intros ->. Qed.

Lemma member_not_nullish (v : value) (k : string) :
  nullish (member v k) = false -> nullish v = false.
Proof. destruct v; simpl; auto. Qed.

Lemma In_includes_str (xs : list value) (s : string) :
  In (VStr s) xs -> includes xs (VStr s) = true.
Proof.
  intros Hin. unfold includes. apply existsb_exists.
  exists (VStr s). split; [assumption | apply same_value_refl_str].
Qed.

End ValueFacts.

(* ------------------------------------------------------------------ *)
(** ** Access control *)
(* ------------------------------------------------------------------ *)
Section AccessControl.
Local Open Scope list_scope.

(** [t.id || t] is the identifier the specification means, or an object, which
    is equal to no identifier read from a definition. *)
Lemma normalize_entry (e : value) :
  nullish e = false ->
  exists v, normalize e = Return v /\
            (v = entry_id e \/ forall x, same_value v x = false).
Proof.
  intros Hn. unfold normalize. rewrite (get_not_nullish _ _ Hn). simpl.
  exists (or_else (member e "id") e). split; [reflexivity|].
  destruct e; try discriminate; try (left; reflexivity).
  unfold or_else. destruct (truthy (member (VObj props) "id")).
  - left. reflexivity.
  - right. intros x. reflexivity.
Qed.

Lemma normalize_all (entries : list value) :
  Forall (fun e => nullish e = false) entries ->
  exists vs, mapM normalize entries = Return vs /\
             forall x, includes vs x = true -> In x (map entry_id entries).
Proof.
  induction 1 as [|e rest He _ IH].
  - exists []. split; [reflexivity | discriminate].
  - destruct (normalize_entry e He) as (v & Hv & Hcase).
    destruct IH as (vs & Hvs & Hin).
    exists (v :: vs). split.
    + simpl. rewrite Hv. simpl. rewrite Hvs. reflexivity.
    + intros x Hx. unfold includes in Hx. simpl in Hx.
      apply orb_true_iff in Hx. destruct Hx as [Hx | Hx].
      * destruct Hcase as [-> | Hobj].
        -- left. now apply same_value_true.
        -- rewrite Hobj in Hx. discriminate.
      * right. now apply Hin.
Qed.

(** A listed identifier that is a non-empty string survives [t.id || t]. *)
Lemma normalize_keeps_id (e : value) (s : string) :
  nullish e = false -> entry_id e = VStr s -> s <> "" ->
  normalize e = Return (VStr s).
Proof.
  intros Hn He Hs. unfold normalize. rewrite (get_not_nullish _ _ Hn). simpl.
  assert (Htruthy : truthy (VStr s) = true).
  { simpl. destruct (String.eqb_spec s ""); [contradiction | reflexivity]. }
  destruct e; simpl in He; try discriminate.
  - injection He as ->. reflexivity.
  - unfold or_else. simpl. rewrite He, Htruthy. reflexivity.
Qed.

Lemma normalize_all_keeps (entries : list value) (s : string) :
  Forall (fun e => nullish e = false) entries ->
  s <> "" ->
  In (VStr s) (map entry_id entries) ->
  exists vs, mapM normalize entries = Return vs /\ In (VStr s) vs.
Proof.
  intros Hall Hs. induction Hall as [|e rest He Hrest IH]; simpl.
  - contradiction.
  - destruct (normalize_entry e He) as (v & Hv & _).
    destruct (normalize_all rest Hrest) as (vs & Hvs & _).
    rewrite Hv. simpl. rewrite Hvs. simpl.
    intros [Hhead | Htail].
    + exists (v :: vs). split; [reflexivity|].
      left. rewrite (normalize_keeps_id e s He Hhead Hs) in Hv. congruence.
    + destruct (IH Htail) as (vs' & Hvs' & Hin).
      exists (v :: vs). split; [reflexivity|].
      right. congruence.
Qed.

Lemma allowed_of_declared (agent : value) (entries : list value) :
  declares_allowed agent entries ->
  Forall (fun e => nullish e = false) entries ->
  exists vs, allowed_of agent = Return vs /\
             forall x, includes vs x = true -> In x (map entry_id entries).
Proof.
  intros (_ & [Harr | (Hnull & ->)]) Hall; unfold allowed_of.
  - rewrite Harr. simpl. now apply normalize_all.
  - rewrite Hnull. exists []. split; [reflexivity | discriminate].
Qed.


(** The check of a non-orchestrator agent, spelled out. *)
Lemma isAllowed_other (agent tool : value) :
  nullish agent = false ->
  member agent "id" <> VStr ORCHESTRATOR ->
  isAllowed agent tool =
    (allowed <- allowed_of agent ;;
     section <- get tool "tool" ;;
     Return (includes allowed (get_opt section "id"))).
Proof.
  intros Hn Hid. unfold isAllowed.
  rewrite (get_not_nullish _ _ Hn). simpl.
  now rewrite (same_value_distinct _ _ Hid).
Qed.

(** Every path of executeTool to an adapter goes through a positive check. *)
Lemma executeTool_guard (fs : filesystem) (agent : value) (toolId : string)
    (payload : value) :
  (exists tool, resolveTool fs toolId = Return tool /\
                isAllowed agent tool = Return true) \/
  (exists e, executeTool fs agent toolId payload = Done (Throw e)).
Proof.
  unfold executeTool.
  destruct (resolveTool fs toolId) as [tool|e] eqn:Hres;
    [|right; eexists; reflexivity].
  destruct (isAllowed agent tool) as [[|]|e] eqn:Hok;
    [|right; destruct (ToString (member agent "id")); eexists; reflexivity
     |right; eexists; reflexivity].
  left. exists tool. split; [reflexivity | assumption].
Qed.

End AccessControl.

(* ------------------------------------------------------------------ *)
(** ** Properties of the access check *)
(* ------------------------------------------------------------------ *)
Section AccessProperties.
Import Scenarios.
Local Open Scope list_scope.

(** C2.  An agent whose id is the orchestrator identifier "bmad-orchestrator"
    is allowed every tool: isAllowed returns true whatever the agent's tools
    section holds, or when it has none, and whatever the tool is. *)
Theorem isAllowed_orchestrator (agent tool : value) :
  member agent "id" = VStr ORCHESTRATOR ->
  isAllowed agent tool = Return true.
Proof.
  intros Hid.
  assert (Hn : nullish agent = false).
  { apply member_not_nullish with (k := "id"). now rewrite Hid. }
  unfold isAllowed. rewrite (get_not_nullish _ _ Hn). simpl.
  rewrite Hid. reflexivity.
Qed.

Lemma isAllowed_orchestrator_witness :
  isAllowed (VObj [("id", VStr "bmad-orchestrator");
                   ("tools", VObj [("allowed", VArr [VStr "hello-world"])])])
            api_linter = Return true
  /\ isAllowed orchestrator VUndef = Return true.
Proof.
  split; apply isAllowed_orchestrator; reflexivity.
Defined.



(** The check fails when the id declared by the definition is not listed. *)
Lemma isAllowed_not_listed (agent tool tid : value) (entries : list value) :
  declares_allowed agent entries ->
  Forall (fun e => nullish e = false) entries ->
  member agent "id" <> VStr ORCHESTRATOR ->
  declared_id tool = Return tid ->
  ~ In tid (map entry_id entries) ->
  isAllowed agent tool = Return false.
Proof.
  intros Hdecl Hall Hid Htid Hnot.
  rewrite (isAllowed_other agent tool (proj1 Hdecl) Hid).
  destruct (allowed_of_declared agent entries Hdecl Hall) as (vs & -> & Hin).
  simpl. unfold declared_id in Htid.
  destruct (get tool "tool") as [section|e]; simpl in *; [|discriminate].
  injection Htid as <-.
  destruct (includes vs (get_opt section "id")) eqn:Hinc; [|reflexivity].
  exfalso. apply Hnot. now apply Hin.
Qed.





End AccessProperties.

(* ------------------------------------------------------------------ *)
(** ** Resolution *)
(* ------------------------------------------------------------------ *)
Section Resolution.
Import Scenarios.
Local Open Scope list_scope.

Lemma prefix_of_empty (s : string) : String.prefix s "" = true -> s = "".
Proof. destruct s; [reflexivity | discriminate]. Qed.

Lemma find_file_some (toolId file : string) (files : list string) :
  find_file toolId files = Some file ->
  In file files /\ String.prefix toolId file = true.
Proof. unfold find_file. apply find_some. Qed.

Lemma find_file_none (toolId : string) (files : list string) :
  (forall f, In f files -> String.prefix toolId f = false) ->
  find_file toolId files = None.
Proof.
  intros Hnone. unfold find_file.
  destruct (find (fun f => String.prefix toolId f) files) as [f|] eqn:E;
    [|reflexivity].
  apply find_some in E. destruct E as (Hin & Hp).
  rewrite (Hnone f Hin) in Hp. discriminate.
Qed.

(** The directory block returns the first file whose name starts with toolId. *)
Lemma from_directory_hit (fs : filesystem) (toolId file : string)
    (files : list string) :
  fs TOOL_DIR = Some (Directory files) ->
  find_file toolId files = Some file ->
  file <> "" ->
  from_directory fs toolId
    = (tool <- readYAML fs (path_join TOOL_DIR file) ;; Return (Some tool)).
Proof.
  intros Hdir Hfind Hne. unfold from_directory, existsSync, readdirSync.
  rewrite Hdir. simpl. rewrite Hfind.
  destruct (String.eqb_spec file ""); [contradiction | reflexivity].
Qed.

Lemma from_directory_miss (fs : filesystem) (toolId : string)
    (files : list string) :
  tool_files fs files ->
  find_file toolId files = None ->
  from_directory fs toolId = Return None.
Proof.
  intros [Hdir | (Hnone & _)] Hfind; unfold from_directory, existsSync, readdirSync.
  - rewrite Hdir. simpl. now rewrite Hfind.
  - now rewrite Hnone.
Qed.

Lemma resolveTool_from_directory (fs : filesystem) (toolId file : string)
    (files : list string) :
  fs TOOL_DIR = Some (Directory files) ->
  find_file toolId files = Some file ->
  file <> "" ->
  resolveTool fs toolId = readYAML fs (path_join TOOL_DIR file).
Proof.
  intros Hdir Hfind Hne. unfold resolveTool.
  rewrite (from_directory_hit fs toolId file files Hdir Hfind Hne).
  now destruct (readYAML fs (path_join TOOL_DIR file)).
Qed.

(** Only an object has an id equal to a string. *)
Lemma entry_with_id_truthy (e : value) (toolId : string) :
  same_value (member e "id") (VStr toolId) = true -> truthy e = true.
Proof. destruct e; simpl; try discriminate. reflexivity. Qed.

(** find on the entries of the index. *)
Lemma find_entry_first (toolId : string) (entries : list value) :
  Forall (fun e => nullish e = false) entries ->
  find_entry toolId entries
    = Return (match first_entry toolId entries with
              | Some e => e
              | None => VUndef
              end).
Proof.
  induction 1 as [|e rest He _ IH]; [reflexivity|].
  simpl. rewrite (get_not_nullish _ _ He). simpl.
  destruct (same_value (member e "id") (VStr toolId)); [reflexivity | exact IH].
Qed.

Lemma registry_find_first (fs : filesystem) (toolId : string)
    (entries : list value) (reg : value) :
  Forall (fun e => nullish e = false) entries ->
  nullish reg = false ->
  member reg "registry" = VArr entries \/
  (nullish (member reg "registry") = true /\ entries = []) ->
  registry_find toolId reg
    = Return (match first_entry toolId entries with
              | Some e => e
              | None => VUndef
              end).
Proof.
  intros Hall Hreg Hcase. unfold registry_find.
  rewrite (get_not_nullish _ _ Hreg). simpl.
  destruct Hcase as [-> | (-> & ->)]; simpl; [|reflexivity].
  now apply find_entry_first.
Qed.

(** The registry block, on a well-formed index. *)
Lemma from_registry_first (fs : filesystem) (toolId : string)
    (entries : list value) :
  registry_entries fs entries ->
  from_registry fs toolId
    = match first_entry toolId entries with
      | Some e =>
          match member e "file" with
          | VStr file =>
              match fs file with
              | Some _ => tool <- readYAML fs file ;; Return (Some tool)
              | None => Return None
              end
          | _ => Return None
          end
      | None => Return None
      end.
Proof.
  intros (Hall & [(Hnone & ->) | (reg & Hfile & Hreg & Hcase)]);
    unfold from_registry, existsSync.
  - rewrite Hnone. reflexivity.
  - unfold readYAML at 1. rewrite Hfile. simpl.
    rewrite (registry_find_first fs toolId entries reg Hall Hreg Hcase). simpl.
    destruct (first_entry toolId entries) as [e|] eqn:Hfirst; [|reflexivity].
    apply find_some in Hfirst. destruct Hfirst as (_ & Hid).
    rewrite (entry_with_id_truthy e toolId Hid). simpl.
    destruct (member e "file"); try reflexivity.
    destruct (fs s); reflexivity.
Qed.

End Resolution.

(* ------------------------------------------------------------------ *)
(** ** Properties of resolution *)
(* ------------------------------------------------------------------ *)
Section ResolutionProperties.
Import Scenarios.
Local Open Scope list_scope.

(** C5 (as amended).  With a registry index that is absent or parses to a
    document whose registry is absent or a list of non-null entries,
    resolveTool looks in the tool-definitions directory first: when some file
    name there starts with toolId, the result is the parse of such a file (the
    first one the directory lists).  Only when no name starts with toolId is
    the registry index consulted, and only its FIRST entry whose id equals
    toolId: the result is the parse of the file that entry references when
    that file exists; when there is no such entry, or the file of the first one
    does not exist, resolveTool fails with the not-found error, whatever later
    entries with the same id reference. *)
Theorem resolveTool_order (fs : filesystem) (toolId : string)
    (files : list string) (entries : list value) :
  toolId <> "" ->
  tool_files fs files ->
  registry_entries fs entries ->
  (forall f, In f files -> String.prefix toolId f = true ->
     exists f', find_file toolId files = Some f' /\
                In f' files /\ String.prefix toolId f' = true /\
                resolveTool fs toolId = readYAML fs (path_join TOOL_DIR f'))
  /\
  ((forall f, In f files -> String.prefix toolId f = false) ->
     (forall e file,
         first_entry toolId entries = Some e ->
         member e "file" = VStr file ->
         fs file <> None ->
         In e entries /\ member e "id" = VStr toolId /\
         resolveTool fs toolId = readYAML fs file)
     /\
     ((first_entry toolId entries = None \/
       exists e, first_entry toolId entries = Some e /\
                 existsSync fs (member e "file") = false) ->
      resolveTool fs toolId = Throw (ToolNotFound toolId))).
Proof.
  intros Hid Hfiles Hreg. split.
  - intros f Hin Hpre.
    destruct (find_file toolId files) as [f'|] eqn:Hfind.
    + destruct (find_file_some _ _ _ Hfind) as (Hin' & Hpre').
      exists f'. repeat split; try assumption.
      destruct Hfiles as [Hdir | (_ & ->)]; [|contradiction].
      apply (resolveTool_from_directory fs toolId f' files Hdir Hfind).
      intros ->. apply prefix_of_empty in Hpre'. contradiction.
    + unfold find_file in Hfind.
      rewrite (find_none _ _ Hfind f Hin) in Hpre. discriminate.
  - intros Hnone.
    assert (Hmiss : from_directory fs toolId = Return None).
    { apply (from_directory_miss fs toolId files Hfiles).
      now apply find_file_none. }
    split.
    + intros e file Hfirst Hfile Hex.
      pose proof (find_some _ _ Hfirst) as (Hin & Hsame).
      apply same_value_true in Hsame.
      repeat split; try assumption.
      unfold resolveTool. rewrite Hmiss. simpl.
      rewrite (from_registry_first fs toolId entries Hreg), Hfirst, Hfile.
      destruct (fs file); [|contradiction].
      now destruct (readYAML fs file).
    + intros Hnofile.
      unfold resolveTool. rewrite Hmiss. simpl.
      rewrite (from_registry_first fs toolId entries Hreg).
      destruct Hnofile as [-> | (e & -> & Hnofile)]; [reflexivity|].
      destruct (member e "file"); try reflexivity.
      simpl in Hnofile. destruct (fs s); [discriminate | reflexivity].
Qed.

Lemma resolveTool_order_witness :
  resolveTool files "hello" = Return hello_world
  /\ resolveTool files "legacy-vision" = Return vision_processor
  /\ resolveTool files "system-analyzer" = Throw (ToolNotFound "system-analyzer").
Proof.
  assert (Hfiles : tool_files files
                     ["api-linter.md"; "hello-world.md"; "vision-processor.md"]).
  { left. reflexivity. }
  assert (Hreg : registry_entries files
                   [VObj [("id", VStr "system-analyzer");
                          ("file", VStr ".bmad-core/tools/system-analyzer.md")];
                    VObj [("id", VStr "legacy-vision");
                          ("file", VStr "mcp/vision-processor.md")]]).
  { split; [repeat constructor|].
    right. exists registry_index. repeat split. left. reflexivity. }
  split; [|split].
  - destruct (proj1 (resolveTool_order files "hello" _ _
                       ltac:(discriminate) Hfiles Hreg)
                "hello-world.md" ltac:(simpl; tauto) eq_refl)
      as (f' & Hfind & _ & _ & ->).
    vm_compute in Hfind. injection Hfind as <-. reflexivity.
  - apply (proj1 (proj2 (resolveTool_order files "legacy-vision" _ _
                           ltac:(discriminate) Hfiles Hreg)
                    ltac:(simpl; intros f [<- | [<- | [<- | []]]]; reflexivity))
             (VObj [("id", VStr "legacy-vision");
                    ("file", VStr "mcp/vision-processor.md")])
             "mcp/vision-processor.md" eq_refl eq_refl ltac:(discriminate)).
  - apply (proj2 (proj2 (resolveTool_order files "system-analyzer" _ _
                           ltac:(discriminate) Hfiles Hreg)
                    ltac:(simpl; intros f [<- | [<- | [<- | []]]]; reflexivity))).
    right. eexists. split; reflexivity.
Defined.

(** C5 (as stated) fails.  An entry of the index has id toolId and references
    a file that exists, no file of the directory matches, and resolveTool
    fails with the not-found error: an earlier entry with the same id
    references a missing file and the later one is not tried.  And with an
    index file that is empty, no source yields a match and resolveTool fails
    with a TypeError, not with the not-found error. *)
Lemma resolveTool_stops_at_first_entry :
  let present := VObj [("id", VStr "t"); ("file", VStr "present.md")] in
  let entries := [VObj [("id", VStr "t"); ("file", VStr "missing.md")]; present] in
  let fs : filesystem := fun path =>
    if (path =? REGISTRY_PATH)%string then
      Some (File (Return (VObj [("registry", VArr entries)])))
    else if (path =? "present.md")%string then Some (File (Return hello_world))
    else None in
  let blank : filesystem := fun path =>
    if (path =? REGISTRY_PATH)%string then Some (File (Return VUndef)) else None in
  tool_files fs [] /\ registry_entries fs entries
  /\ In present entries /\ member present "id" = VStr "t"
  /\ existsSync fs (member present "file") = true
  /\ readYAML fs "present.md" = Return hello_world
  /\ resolveTool fs "t" = Throw (ToolNotFound "t")
  /\ tool_files blank []
  /\ resolveTool blank "t" = Throw TypeError.
Proof.
  repeat split; try reflexivity.
  - right. split; reflexivity.
  - repeat constructor.
  - right. eexists. split; [reflexivity|]. split; [reflexivity|].
    left. reflexivity.
  - right. left. reflexivity.
  - right. split; reflexivity.
Qed.

(** The check passes as soon as the id declared by the resolved definition is
    listed. *)
Lemma isAllowed_listed (agent tool : value) (s : string) (entries : list value) :
  declares_allowed agent entries ->
  Forall (fun e => nullish e = false) entries ->
  declared_id tool = Return (VStr s) ->
  s <> "" ->
  In (VStr s) (map entry_id entries) ->
  isAllowed agent tool = Return true.
Proof.
  intros (Hn & Hcase) Hall Hdecl Hs Hin. unfold isAllowed.
  rewrite (get_not_nullish _ _ Hn). simpl.
  destruct (same_value (member agent "id") (VStr ORCHESTRATOR)); [reflexivity|].
  unfold allowed_of. destruct Hcase as [-> | (_ & ->)]; [|contradiction].
  simpl. destruct (normalize_all_keeps entries s Hall Hs Hin) as (vs & -> & Hvs).
  simpl. unfold declared_id in Hdecl.
  destruct (get tool "tool") as [section|e]; simpl in *; [|discriminate].
  injection Hdecl as ->. now rewrite (In_includes_str vs s Hvs).
Qed.

(** C9.  The access check of executeTool is made on the id that the resolved
    definition declares, not on the toolId the caller passed.  When the
    directory scan picks a definition file for toolId (toolId a prefix of its
    name), executeTool goes on to the adapter of that definition exactly when
    the id declared in the file is in the agent's allowed list, and fails with
    the access-denied error when it is not, whether or not toolId itself is
    listed.  So the architect, who lists hello-world and not hello, runs the
    hello-world tool under the name hello and gets its greeting; and an agent
    who lists hello and not hello-world is denied the same call. *)
Theorem executeTool_checks_declared_id :
  (forall (fs : filesystem) (agent : value) (toolId file : string)
          (payload tool : value) (s : string) (entries : list value)
          (files : list string),
      fs TOOL_DIR = Some (Directory files) ->
      find_file toolId files = Some file ->
      file <> toolId ->
      readYAML fs (path_join TOOL_DIR file) = Return tool ->
      declared_id tool = Return (VStr s) ->
      s <> "" ->
      declares_allowed agent entries ->
      Forall (fun e => nullish e = false) entries ->
      In (VStr s) (map entry_id entries) ->
      executeTool fs agent toolId payload
        = dispatch tool toolId (default_payload payload))
  /\
  (forall (fs : filesystem) (agent : value) (toolId file text : string)
          (payload tool tid : value) (entries : list value)
          (files : list string),
      toolId <> "" ->
      fs TOOL_DIR = Some (Directory files) ->
      find_file toolId files = Some file ->
      readYAML fs (path_join TOOL_DIR file) = Return tool ->
      declared_id tool = Return tid ->
      declares_allowed agent entries ->
      Forall (fun e => nullish e = false) entries ->
      member agent "id" <> VStr ORCHESTRATOR ->
      ToString (member agent "id") = Return text ->
      ~ In tid (map entry_id entries) ->
      executeTool fs agent toolId payload
        = Done (Throw (AccessDenied (member agent "id") toolId)))
  /\
  (let w := installation lint_report (echo VNull) in
   let dev := VObj [("id", VStr "dev");
                    ("tools", VObj [("allowed", VArr [VStr "hello"])])] in
   ~ In (VStr "hello") (map entry_id [VStr "system-analyzer"; VStr "hello-world"])
   /\ execute w architect "hello" VUndef
      = (log (Ran (VObj []))
           (log (Imported (VStr "./bmad-core/runtime/tools/hello-world.js")) w),
         Fulfilled (VObj [("message", VStr "Hello from BMAD Tools!")]))
   /\ In (VStr "hello") (map entry_id [VStr "hello"])
   /\ execute w dev "hello" VUndef
      = (w, Rejected (AccessDenied (VStr "dev") "hello"))).
Proof.
  split; [|split].
  - intros fs agent toolId file payload tool s entries files
           Hdir Hfind Hstrict Hread Hdecl Hs Hallowed Hall Hin.
    assert (Hne : file <> "").
    { intros ->. apply find_file_some in Hfind. destruct Hfind as (_ & Hp).
      apply prefix_of_empty in Hp. congruence. }
    unfold executeTool.
    rewrite (resolveTool_from_directory fs toolId file files Hdir Hfind Hne), Hread.
    now rewrite (isAllowed_listed agent tool s entries Hallowed Hall Hdecl Hs Hin).
  - intros fs agent toolId file text payload tool tid entries files
           Htool Hdir Hfind Hread Hdecl Hallowed Hall Hid Htext Hnot.
    assert (Hne : file <> "").
    { intros ->. apply find_file_some in Hfind. destruct Hfind as (_ & Hp).
      apply prefix_of_empty in Hp. congruence. }
    unfold executeTool.
    rewrite (resolveTool_from_directory fs toolId file files Hdir Hfind Hne), Hread.
    now rewrite (isAllowed_not_listed agent tool tid entries
                   Hallowed Hall Hid Hdecl Hnot), Htext.
  - simpl. split; [intros [H | [H | []]]; discriminate|].
    split; [reflexivity|]. split; [left; reflexivity | reflexivity].
Qed.

Lemma executeTool_checks_declared_id_witness :
  executeTool files architect "hello" VUndef
    = dispatch hello_world "hello" (VObj [])
  /\ executeTool files analyst "vis" (VNum 7)
    = dispatch vision_processor "vis" (VNum 7)
  /\ executeTool files
       (VObj [("id", VStr "dev"); ("tools", VObj [("allowed", VArr [VStr "hello"])])])
       "hello" VUndef
    = Done (Throw (AccessDenied (VStr "dev") "hello")).
Proof.
  split; [|split].
  - apply (proj1 executeTool_checks_declared_id files architect "hello"
             "hello-world.md" VUndef hello_world "hello-world"
             [VStr "system-analyzer"; VStr "hello-world"]
             ["api-linter.md"; "hello-world.md"; "vision-processor.md"]);
      try reflexivity; try discriminate.
    + split; [reflexivity | left; reflexivity].
    + repeat constructor.
    + simpl. tauto.
  - apply (proj1 executeTool_checks_declared_id files analyst "vis"
             "vision-processor.md" (VNum 7) vision_processor "vision-processor"
             [VObj [("id", VStr "vision-processor")]; VStr "api-linter"]
             ["api-linter.md"; "hello-world.md"; "vision-processor.md"]);
      try reflexivity; try discriminate.
    + split; [reflexivity | left; reflexivity].
    + repeat constructor.
    + simpl. tauto.
  - apply (proj1 (proj2 executeTool_checks_declared_id) files
             (VObj [("id", VStr "dev");
                    ("tools", VObj [("allowed", VArr [VStr "hello"])])])
             "hello" "hello-world.md" "dev" VUndef hello_world
             (VStr "hello-world") [VStr "hello"]
             ["api-linter.md"; "hello-world.md"; "vision-processor.md"]);
      try reflexivity; try discriminate.
    + split; [reflexivity | left; reflexivity].
    + repeat constructor.
    + simpl. intros [H | []]; discriminate.
Defined.

End ResolutionProperties.

(* ------------------------------------------------------------------ *)
(** ** Sockets, listeners and promises *)
(* ------------------------------------------------------------------ *)
Section Sockets.
Local Open Scope list_scope.

Lemma resolve_idempotent {A : Type} (a : A) (p : outcome A) :
  resolve a (resolve a p) = resolve a p.
Proof. now destruct p. Qed.

Lemma settle_call_length (i : nat) (body : value) (calls : list (outcome value)) :
  List.length (settle_call i body calls) = List.length calls.
Proof.
  revert i. induction calls as [|p rest IH]; intros [|j]; simpl; auto.
Qed.

Lemma settle_call_same (n : nat) (body : value) (calls : list (outcome value)) :
  (n < List.length calls)%nat ->
  nth n (settle_call n body calls) Pending = resolve body (nth n calls Pending).
Proof.
  revert n. induction calls as [|p rest IH]; intros [|j] Hlt; simpl in *;
    try lia; [reflexivity|].
  apply IH. lia.
Qed.

Lemma settle_call_other (i n : nat) (body : value) (calls : list (outcome value)) :
  i <> n ->
  nth n (settle_call i body calls) Pending = nth n calls Pending.
Proof.
  revert i n. induction calls as [|p rest IH]; intros [|i] [|n] Hne; simpl;
    try reflexivity; try congruence.
  apply IH. congruence.
Qed.

Lemma settle_all_other (body : value) (listeners : list nat)
    (calls : list (outcome value)) (n : nat) :
  ~ In n listeners ->
  nth n (settle_all body listeners calls) Pending = nth n calls Pending.
Proof.
  unfold settle_all. revert calls.
  induction listeners as [|i rest IH]; intros calls Hnot; simpl; [reflexivity|].
  rewrite IH by (intros H; apply Hnot; now right).
  apply settle_call_other. intros ->. apply Hnot. now left.
Qed.

(** A message settles every promise that has a listener. *)
Lemma settle_all_listener (body : value) (listeners : list nat)
    (calls : list (outcome value)) (n : nat) :
  In n listeners ->
  (n < List.length calls)%nat ->
  nth n (settle_all body listeners calls) Pending
    = resolve body (nth n calls Pending).
Proof.
  unfold settle_all. revert calls.
  induction listeners as [|i rest IH]; intros calls Hin Hlt; simpl;
    [contradiction|].
  destruct (in_dec Nat.eq_dec n rest) as [Hrest | Hrest].
  - rewrite (IH _ Hrest) by (now rewrite settle_call_length).
    destruct (Nat.eq_dec i n) as [-> | Hne].
    + rewrite (settle_call_same _ _ _ Hlt). apply resolve_idempotent.
    + now rewrite (settle_call_other _ _ _ _ Hne).
  - fold (settle_all body rest (settle_call i body calls)).
    rewrite (settle_all_other _ _ _ _ Hrest).
    destruct Hin as [-> | Hin]; [|contradiction].
    now apply settle_call_same.
Qed.

Lemma on_message_listener (body : value) (s : socket) (n : nat) :
  In n (ws_once s) ->
  (n < List.length (ws_calls s))%nat ->
  call_promise n (on_message body s) = resolve body (call_promise n s).
Proof. intros Hin Hlt. now apply settle_all_listener. Qed.

(** An error event does not touch the promises of the calls. *)
Lemma errors_keep_calls (reasons : list value) (s : socket) :
  ws_calls (fold_left (fun s r => handle (Error r) s) reasons s) = ws_calls s.
Proof.
  revert s. induction reasons as [|r rest IH]; intros s; simpl; [reflexivity|].
  now rewrite IH.
Qed.

Lemma call_promise_new (toolId payload : value) (s : socket) :
  call_promise (List.length (ws_calls s)) (call toolId payload s) = Pending.
Proof.
  unfold call_promise, call. simpl. now rewrite nth_middle.
Qed.

(** The closures of a socket never change. *)
Lemma handle_closure (ev : net_event) (s : socket) :
  ws_server (handle ev s) = ws_server s /\
  ws_namespace (handle ev s) = ws_namespace s /\
  ws_token (handle ev s) = ws_token s.
Proof.
  destruct ev; simpl; auto.
  unfold on_open. destruct (truthy (ws_token s)); simpl; auto.
Qed.

Lemma step_closure (s s' : socket) :
  step s s' ->
  ws_server s' = ws_server s /\
  ws_namespace s' = ws_namespace s /\
  ws_token s' = ws_token s.
Proof. intros [ev s0 | toolId payload s0 _]; [apply handle_closure | simpl; auto]. Qed.

Lemma steps_closure (s s' : socket) :
  steps s s' ->
  ws_server s' = ws_server s /\
  ws_namespace s' = ws_namespace s /\
  ws_token s' = ws_token s.
Proof.
  induction 1 as [s | s1 s2 s3 _ (IH1 & IH2 & IH3) Hstep]; [auto|].
  destruct (step_closure _ _ Hstep) as (-> & -> & ->). auto.
Qed.

Lemma steps_trans (s1 s2 s3 : socket) :
  steps s1 s2 -> steps s2 s3 -> steps s1 s3.
Proof.
  intros H12 H23. induction H23 as [s | s2 s3 s4 _ IH Hstep]; [assumption|].
  eapply steps_snoc; [apply IH; assumption | exact Hstep].
Qed.

(** Awaiting only lets the socket handle events. *)
Lemma pump_steps (is_done : socket -> bool) (events : list net_event) (s : socket) :
  steps s (fst (pump is_done events s)).
Proof.
  revert s. induction events as [|ev rest IH]; intros s; simpl.
  - destruct (is_done s); apply steps_refl.
  - destruct (is_done s); [apply steps_refl|].
    eapply steps_trans; [|apply IH].
    eapply steps_snoc; [apply steps_refl | apply step_event].
Qed.

Lemma authenticated_first_new (server namespace token : value) :
  authenticated_first token (new_socket server namespace token).
Proof.
  repeat split; simpl; try discriminate.
Qed.

Lemma authenticated_first_step (token : value) (s s' : socket) :
  truthy token = true ->
  authenticated_first token s -> step s s' -> authenticated_first token s'.
Proof.
  intros Htok (Htoken & Hsent & Hfirst) Hstep.
  destruct Hstep as [[|body|reason| |] s | toolId payload s Hopen].
  5: now repeat split.
  4: now repeat split.
  - (* open *)
    simpl. unfold on_open. rewrite Htoken, Htok. simpl.
    repeat split; simpl; try assumption.
    + intros _. now destruct (ws_sent s).
    + intros frame rest Heq. destruct (ws_sent s) as [|f0 r0] eqn:Es.
      * simpl in Heq. congruence.
      * simpl in Heq. injection Heq as <- _. now apply (Hfirst f0 r0).
  - (* message *)
    repeat split; simpl; assumption.
  - (* error *)
    repeat split; simpl; try assumption.
    intros Hc. apply Hsent. destruct (ws_connect s) as [|[]|e]; simpl in Hc;
      congruence.
  - (* call *)
    specialize (Hsent Hopen).
    repeat split; simpl; try assumption.
    + intros _. now destruct (ws_sent s).
    + intros frame rest Heq. destruct (ws_sent s) as [|f0 r0] eqn:Es;
        [contradiction|].
      simpl in Heq. injection Heq as <- _. now apply (Hfirst f0 r0).
Qed.

Lemma authenticated_first_steps (token : value) (s s' : socket) :
  truthy token = true ->
  authenticated_first token s -> steps s s' -> authenticated_first token s'.
Proof.
  intros Htok Hinv Hsteps. induction Hsteps as [s | s1 s2 s3 _ IH Hstep];
    [assumption|].
  exact (authenticated_first_step token s2 s3 Htok (IH Hinv) Hstep).
Qed.

End Sockets.

(* ------------------------------------------------------------------ *)
(** ** Properties of the MCP client *)
(* ------------------------------------------------------------------ *)
Section McpProperties.
Import Scenarios.
Local Open Scope list_scope.

(** C7.  A call sends exactly one frame on the socket, the encoding of
    {action: "invoke", namespace, toolId, payload} and nothing else (no
    correlation identifier), registers exactly one listener, for the next
    message, and that message, whatever it holds, fulfils the promise of the
    call with its decoded body and removes the listener. *)
Theorem call_one_frame_one_listener (s : socket) (toolId payload body : value) :
  let n := List.length (ws_calls s) in
  let s' := call toolId payload s in
  ws_sent s' = ws_sent s ++ [VObj [("action", VStr "invoke");
                                   ("namespace", ws_namespace s);
                                   ("toolId", toolId);
                                   ("payload", payload)]]
  /\ ws_once s' = ws_once s ++ [n]
  /\ ws_calls s' = ws_calls s ++ [Pending]
  /\ call_promise n (handle (Message body) s') = Fulfilled body
  /\ ws_once (handle (Message body) s') = [].
Proof.
  intros n s'. repeat split.
  simpl handle. rewrite on_message_listener.
  - unfold n, s'. now rewrite call_promise_new.
  - unfold s'. simpl. apply in_or_app. right. now left.
  - unfold s', n. simpl. rewrite length_app. simpl. lia.
Qed.

(** Two calls in flight on one socket are both fulfilled by the first message. *)
Remark calls_in_flight_share_message (s : socket) (t1 p1 t2 p2 body : value) :
  let n := List.length (ws_calls s) in
  let s' := handle (Message body) (call t2 p2 (call t1 p1 s)) in
  call_promise n s' = Fulfilled body /\ call_promise (S n) s' = Fulfilled body.
Proof.
  intros n s'. unfold s'. simpl handle. split.
  - rewrite on_message_listener.
    + unfold call_promise, n. simpl. rewrite <- app_assoc. simpl.
      now rewrite nth_middle.
    + simpl. apply in_or_app. left. apply in_or_app. right. now left.
    + simpl. rewrite !length_app. simpl. lia.
  - rewrite on_message_listener.
    + unfold call_promise, n. simpl.
      replace (S (List.length (ws_calls s)))
        with (List.length (ws_calls s ++ [Pending]))
        by (rewrite length_app; simpl; lia).
      now rewrite nth_middle.
    + simpl. apply in_or_app. right. left. rewrite length_app. simpl. lia.
    + simpl. rewrite !length_app. simpl. lia.
Qed.



(** C4 (what the code does).  After a call has sent its invoke frame, error
    events on the socket, however many, leave the promise of the call pending:
    the error listener is the reject of the connection promise, which is
    already fulfilled.  A caller of executeTool whose MCP server accepts the
    connection and then fails waits for ever. *)
Theorem call_pending_after_socket_error (s : socket) (toolId payload : value)
    (reasons : list value) :
  call_promise (List.length (ws_calls s))
    (fold_left (fun s r => handle (Error r) s) reasons (call toolId payload s))
    = Pending
  /\ snd (execute (installation lint_report failing) analyst "vision-processor"
            (VObj [("image", VStr "a.png")])) = Pending.
Proof.
  split; [|reflexivity].
  unfold call_promise. rewrite errors_keep_calls.
  apply call_promise_new.
Qed.

End McpProperties.

(* ------------------------------------------------------------------ *)
(** ** Running executeTool *)
(* ------------------------------------------------------------------ *)
Section Running.
Local Open Scope list_scope.

Lemma execute_allowed (w : world) (agent : value) (toolId : string)
    (payload tool : value) :
  resolveTool (w_fs w) toolId = Return tool ->
  isAllowed agent tool = Return true ->
  execute w agent toolId payload
    = run w (dispatch tool toolId (default_payload payload)).
Proof.
  intros Hres Hok. unfold execute, executeTool. now rewrite Hres, Hok.
Qed.

Lemma section_type (section : value) (type : string) :
  member section "type" = VStr type ->
  get section "type" = Return (VStr type).
Proof.
  intros Htype. rewrite get_not_nullish; [now rewrite Htype|].
  apply member_not_nullish with (k := "type"). now rewrite Htype.
Qed.

Lemma dispatch_remote (tool section : value) (toolId : string) (payload : value) :
  get tool "tool" = Return section ->
  member section "type" = VStr "remote" ->
  dispatch tool toolId payload
    = Await (Fetch (member section "entrypoint") payload) (fun res =>
        if negb (ok res) then Done (Throw (RemoteFailed toolId (status res)))
        else Await (Json res) (fun out => Done (Return out))).
Proof.
  intros Hsec Htype. unfold dispatch.
  now rewrite Hsec, (section_type _ _ Htype).
Qed.

Lemma dispatch_mcp (tool section : value) (toolId : string) (payload : value) :
  get tool "tool" = Return section ->
  member section "type" = VStr "mcp" ->
  dispatch tool toolId payload
    = Await (Connect (member section "mcpServer") (member section "entrypoint"))
        (fun c =>
         Await (Call c (VStr toolId) payload) (fun out => Done (Return out))).
Proof.
  intros Hsec Htype. unfold dispatch.
  now rewrite Hsec, (section_type _ _ Htype).
Qed.

Lemma ok_2xx (res : response) :
  ok res = true <-> 200 <= status res < 300.
Proof.
  unfold ok. rewrite andb_true_iff, Z.leb_le, Z.ltb_lt. tauto.
Qed.

Lemma replace_nth_last {A : Type} (xs : list A) (x y : A) :
  replace_nth (List.length xs) y (xs ++ [x]) = xs ++ [y].
Proof. induction xs as [|z rest IH]; simpl; [reflexivity | now rewrite IH]. Qed.

Lemma nth_error_last {A : Type} (xs : list A) (x : A) :
  nth_error (xs ++ [x]) (List.length xs) = Some x.
Proof.
  rewrite nth_error_app2 by lia. now rewrite Nat.sub_diag.
Qed.

(** A settled connection promise is not changed by events or calls. *)
Lemma connect_stays (s s' : socket) :
  steps s s' ->
  settled (ws_connect s) = true ->
  ws_connect s' = ws_connect s.
Proof.
  intros Hsteps Hset. induction Hsteps as [s | s1 s2 s3 _ IH Hstep];
    [reflexivity|].
  specialize (IH Hset). rewrite <- IH. rewrite <- IH in Hset.
  destruct Hstep as [[|body|reason| |] s2 | toolId payload s2 _]; simpl;
    try reflexivity.
  - unfold on_open. destruct (truthy (ws_token s2)); simpl;
      now destruct (ws_connect s2).
  - now destruct (ws_connect s2).
Qed.

Lemma drain_steps (events : list net_event) (s : socket) :
  steps s (fst (drain events s)).
Proof.
  revert s. induction events as [|ev rest IH]; intros s; [apply steps_refl|].
  assert (Hgo : steps s (fst (drain rest (handle ev s)))).
  { eapply steps_trans; [|apply IH].
    eapply steps_snoc; [apply steps_refl | apply step_event]. }
  destruct ev; try exact Hgo. apply steps_refl.
Qed.

(** The MCP adapter: one more socket, and only events and the call on it. *)
Lemma run_mcp (w : world) (server namespace toolId payload token : value) :
  read_token (w_fs w) server = Return token ->
  exists s,
    w_sockets (fst (run w (Await (Connect server namespace) (fun c =>
                            Await (Call c toolId payload)
                              (fun out => Done (Return out))))))
      = w_sockets w ++ [s]
    /\ steps (new_socket server namespace token) s
    /\ w_fs (fst (run w (Await (Connect server namespace) (fun c =>
                            Await (Call c toolId payload)
                              (fun out => Done (Return out))))))
       = w_fs w.
Proof.
  intros Hread. simpl. unfold perform_connect, connectMCP.
  rewrite Hread. simpl. rewrite nth_middle.
  set (s0 := new_socket server namespace token).
  pose proof (pump_steps (fun s => settled (ws_connect s))
                (w_network w (List.length (w_sockets w))) s0) as Hsteps1.
  destruct (pump (fun s => settled (ws_connect s))
              (w_network w (List.length (w_sockets w))) s0) as [s1 ev1].
  simpl in Hsteps1.
  destruct (ws_connect s1) as [|[]|e] eqn:Hc1; simpl.
  - exists s1. now rewrite replace_nth_last.
  - pose proof (drain_steps ev1 s1) as Hdrain.
    destruct (drain ev1 s1) as [s1' ev1']. simpl in Hdrain.
    assert (Hc1' : ws_connect s1' = Fulfilled tt).
    { rewrite <- Hc1. apply connect_stays; [exact Hdrain | now rewrite Hc1]. }
    simpl. unfold perform_call. simpl.
    rewrite replace_nth_last, nth_error_last, Nat.eqb_refl.
    set (n := List.length (ws_calls s1')).
    pose proof (pump_steps (fun s => settled (call_promise n s)) ev1'
                  (call toolId payload s1')) as Hsteps2.
    destruct (pump (fun s => settled (call_promise n s)) ev1'
                (call toolId payload s1')) as [s2 ev2].
    simpl in Hsteps2.
    assert (Hsteps : steps s0 s2).
    { eapply steps_trans; [|exact Hsteps2].
      eapply steps_snoc;
        [eapply steps_trans; [exact Hsteps1 | exact Hdrain]
        | now apply step_call]. }
    exists s2.
    destruct (call_promise n s2); simpl; now rewrite replace_nth_last.
  - exists s1. now rewrite replace_nth_last.
Qed.

Lemma connections_to_snoc (server : string) (w w' : world) (s : socket) :
  w_sockets w' = w_sockets w ++ [s] ->
  ws_server s = VStr server ->
  connections_to server w' = S (connections_to server w).
Proof.
  intros Hs Hserver. unfold connections_to.
  rewrite Hs, filter_app, length_app. simpl.
  rewrite Hserver, same_value_refl_str. simpl. lia.
Qed.

(** One executeTool call that reaches the MCP adapter. *)
Lemma execute_mcp (w : world) (agent : value) (toolId server : string)
    (payload token : value) :
  reaches_mcp (w_fs w) agent toolId server ->
  read_token (w_fs w) (VStr server) = Return token ->
  exists s,
    w_sockets (fst (execute w agent toolId payload)) = w_sockets w ++ [s]
    /\ steps (new_socket (VStr server) (ws_namespace s) token) s
    /\ w_fs (fst (execute w agent toolId payload)) = w_fs w.
Proof.
  intros (tool & section & Hres & Hok & Hsec & Htype & Hserver) Hread.
  rewrite (execute_allowed w agent toolId payload tool Hres Hok).
  rewrite (dispatch_mcp tool section toolId _ Hsec Htype), Hserver.
  destruct (run_mcp w (VStr server) (member section "entrypoint")
              (VStr toolId) (default_payload payload) token Hread)
    as (s & Hs & Hsteps & Hfs).
  exists s. repeat split; try assumption.
  destruct (steps_closure _ _ Hsteps) as (_ & -> & _). exact Hsteps.
Qed.

End Running.

(* ------------------------------------------------------------------ *)
(** ** Properties of the adapters *)
(* ------------------------------------------------------------------ *)
Section AdapterProperties.
Import Scenarios.
Local Open Scope list_scope.

(** C6.  For a tool of type remote that the agent may use, executeTool makes
    one POST of the payload to the tool's entrypoint.  When the response has a
    status outside 200..299 the call fails with the remote-failure error that
    carries that status; when the status is in 200..299 the call ends as
    res.json() does, that is with the JSON-decoded body. *)
Theorem executeTool_remote (w : world) (agent : value) (toolId : string)
    (payload tool section : value) (res : response) :
  resolveTool (w_fs w) toolId = Return tool ->
  isAllowed agent tool = Return true ->
  get tool "tool" = Return section ->
  member section "type" = VStr "remote" ->
  w_fetch w (member section "entrypoint") (default_payload payload) = Fulfilled res ->
  let posted :=
    log (Posted (member section "entrypoint") (default_payload payload)) w in
  (status res < 200 \/ 300 <= status res ->
     execute w agent toolId payload
       = (posted, Rejected (RemoteFailed toolId (status res))))
  /\ (200 <= status res < 300 ->
     execute w agent toolId payload = (posted, json res)
     /\ forall body, json res = Fulfilled body ->
          execute w agent toolId payload = (posted, Fulfilled body)).
Proof.
  intros Hres Hok Hsec Htype Hfetch posted.
  rewrite (execute_allowed w agent toolId payload tool Hres Hok).
  rewrite (dispatch_remote tool section toolId _ Hsec Htype).
  simpl. rewrite Hfetch. fold posted.
  assert (H2xx : 200 <= status res < 300 -> run posted
            (if negb (ok res) then Done (Throw (RemoteFailed toolId (status res)))
             else Await (Json res) (fun out => Done (Return out)))
            = (posted, json res)).
  { intros Hin. apply ok_2xx in Hin. rewrite Hin. simpl.
    now destruct (json res). }
  split.
  - intros Hout.
    destruct (ok res) eqn:Eok; [apply ok_2xx in Eok; lia | reflexivity].
  - intros Hin. split; [now apply H2xx|].
    intros body Hbody. rewrite (H2xx Hin). now rewrite Hbody.
Qed.

Lemma executeTool_remote_witness :
  let w := installation internal_error (echo VNull) in
  execute w analyst "api-linter" (VObj [("path", VStr "./modules")])
    = (log (Posted (VStr "https://lint.bmad.ai/run")
                   (VObj [("path", VStr "./modules")])) w,
       Rejected (RemoteFailed "api-linter" 500)).
Proof.
  intros w.
  apply (proj1 (executeTool_remote w analyst "api-linter"
                  (VObj [("path", VStr "./modules")]) api_linter
                  (VObj [("id", VStr "api-linter"); ("type", VStr "remote");
                         ("entrypoint", VStr "https://lint.bmad.ai/run")])
                  internal_error eq_refl eq_refl eq_refl eq_refl eq_refl)).
  simpl. lia.
Defined.

(** C3 (as amended).  connectMCP keeps no session: every executeTool call that
    reaches the MCP adapter and whose lookup of the token returns (the
    credential file is absent, or it is read and holds a token or none)
    creates a socket of its own to the tool's mcpServer, next to the ones that
    exist, and that socket authenticates again when it opens if a token is
    configured.  Two such calls for tools with the same mcpServer leave two
    more sockets to that server. *)
Theorem executeTool_socket_per_call (w : world) (agent1 agent2 : value)
    (toolId1 toolId2 server : string) (payload1 payload2 token : value) :
  reaches_mcp (w_fs w) agent1 toolId1 server ->
  reaches_mcp (w_fs w) agent2 toolId2 server ->
  read_token (w_fs w) (VStr server) = Return token ->
  let w1 := fst (execute w agent1 toolId1 payload1) in
  let w2 := fst (execute w1 agent2 toolId2 payload2) in
  exists s1 s2,
    w_sockets w2 = w_sockets w ++ [s1; s2]
    /\ ws_server s1 = VStr server
    /\ ws_server s2 = VStr server
    /\ connections_to server w2 = (connections_to server w + 2)%nat
    /\ (truthy token = true ->
        forall s, In s [s1; s2] -> ws_connect s = Fulfilled tt ->
                  exists rest, ws_sent s = auth_message token :: rest).
Proof.
  intros Hfirst Hsecond Hread w1 w2.
  destruct (execute_mcp w agent1 toolId1 server payload1 token Hfirst Hread)
    as (s1 & Hs1 & Hsteps1 & Hfs1).
  fold w1 in Hs1, Hfs1.
  rewrite <- Hfs1 in Hsecond, Hread.
  destruct (execute_mcp w1 agent2 toolId2 server payload2 token Hsecond Hread)
    as (s2 & Hs2 & Hsteps2 & _).
  fold w2 in Hs2.
  destruct (steps_closure _ _ Hsteps1) as (Hserver1 & _ & _).
  destruct (steps_closure _ _ Hsteps2) as (Hserver2 & _ & _).
  simpl in Hserver1, Hserver2.
  exists s1, s2. repeat split; try assumption.
  - rewrite Hs2, Hs1, <- app_assoc. reflexivity.
  - rewrite (connections_to_snoc server w1 w2 s2 Hs2 Hserver2).
    rewrite (connections_to_snoc server w w1 s1 Hs1 Hserver1). lia.
  - intros Htok s Hin Hopen.
    assert (Hinv : authenticated_first token s).
    { destruct Hin as [<- | [<- | []]].
      - exact (authenticated_first_steps token _ s1 Htok
                 (authenticated_first_new _ _ _) Hsteps1).
      - exact (authenticated_first_steps token _ s2 Htok
                 (authenticated_first_new _ _ _) Hsteps2). }
    destruct Hinv as (_ & Hsent & Hhead).
    destruct (ws_sent s) as [|frame rest] eqn:Es; [now elim (Hsent Hopen)|].
    exists rest. now rewrite (Hhead frame rest eq_refl).
Qed.

Lemma executeTool_socket_per_call_witness :
  let w := installation lint_report (echo (VObj [])) in
  let w1 := fst (execute w analyst "vision-processor" (VObj [])) in
  let w2 := fst (execute w1 analyst "vision" (VObj [])) in
  exists s1 s2,
    w_sockets w2 = w_sockets w ++ [s1; s2]
    /\ ws_server s1 = VStr "wss://mcp.bmad.ai"
    /\ ws_server s2 = VStr "wss://mcp.bmad.ai"
    /\ connections_to "wss://mcp.bmad.ai" w2
       = (connections_to "wss://mcp.bmad.ai" w + 2)%nat
    /\ (truthy (VStr "s3cret") = true ->
        forall s, In s [s1; s2] -> ws_connect s = Fulfilled tt ->
                  exists rest, ws_sent s = auth_message (VStr "s3cret") :: rest).
Proof.
  intros w.
  apply (executeTool_socket_per_call w analyst analyst "vision-processor"
           "vision" "wss://mcp.bmad.ai" (VObj []) (VObj []) (VStr "s3cret")).
  - exists vision_processor,
      (VObj [("id", VStr "vision-processor"); ("type", VStr "mcp");
             ("mcpServer", VStr "wss://mcp.bmad.ai");
             ("entrypoint", VStr "vision-tools")]).
    repeat split.
  - exists vision_processor,
      (VObj [("id", VStr "vision-processor"); ("type", VStr "mcp");
             ("mcpServer", VStr "wss://mcp.bmad.ai");
             ("entrypoint", VStr "vision-tools")]).
    repeat split.
  - reflexivity.
Defined.

(** C3 (as stated) fails: two executeTool calls for the same mcpServer open
    two sockets, not one, and both sockets send the authentication message. *)
Lemma two_calls_open_two_sockets :
  let w := installation lint_report (echo (VObj [])) in
  let w1 := fst (execute w analyst "vision-processor" (VObj [])) in
  let w2 := fst (execute w1 analyst "vision-processor" (VObj [])) in
  connections_to "wss://mcp.bmad.ai" w = 0%nat
  /\ connections_to "wss://mcp.bmad.ai" w2 = 2%nat
  /\ connections_to "wss://mcp.bmad.ai" w2 <> 1%nat
  /\ map (fun s => hd VUndef (ws_sent s)) (w_sockets w2)
     = [auth_message (VStr "s3cret"); auth_message (VStr "s3cret")].
Proof.
  vm_compute. repeat split. discriminate.
Qed.

End AdapterProperties.

(* ------------------------------------------------------------------ *)
(** ** Further properties of resolution *)
(* ------------------------------------------------------------------ *)
Section MoreResolution.
Import Scenarios.
Local Open Scope list_scope.

Lemma prefix_empty (s : string) : String.prefix "" s = true.
Proof. now destruct s. Qed.

Lemma prefix_trans (a b c : string) :
  String.prefix a b = true -> String.prefix b c = true ->
  String.prefix a c = true.
Proof.
  revert a b. induction c as [|z c IH]; intros a b Hab Hbc.
  - apply prefix_of_empty in Hbc. subst b.
    apply prefix_of_empty in Hab. now subst a.
  - destruct a as [|x a]; [reflexivity|].
    destruct b as [|y b]; [discriminate|].
    simpl in *.
    destruct (ascii_dec x y) as [-> | ]; [|discriminate].
    destruct (ascii_dec y z) as [-> | ]; [|discriminate].
    now apply (IH a b).
Qed.

Lemma prefix_append (a b : string) : String.prefix a (a ++ b) = true.
Proof.
  induction a as [|x a IH]; simpl; [apply prefix_empty|].
  destruct (ascii_dec x x); [exact IH | contradiction].
Qed.

Lemma find_file_exists (toolId f : string) (files : list string) :
  In f files -> String.prefix toolId f = true ->
  exists f', find_file toolId files = Some f'.
Proof.
  intros Hin Hp. destruct (find_file toolId files) as [f'|] eqn:E; [eauto|].
  unfold find_file in E. rewrite (find_none _ _ E f Hin) in Hp. discriminate.
Qed.

(** X1.  With a tool directory that is absent or a directory, and a registry
    index that is absent or parses to a document whose registry is absent or
    a list of non-null entries: an identifier that no directory file name
    starts with and that no registry entry with an existing file carries makes
    executeTool fail with the not-found error for every agent, the
    orchestrator included, and nothing is imported, requested or connected. *)
Theorem execute_not_found (w : world) (agent : value) (toolId : string)
    (payload : value) (files : list string) (entries : list value) :
  tool_files (w_fs w) files ->
  registry_entries (w_fs w) entries ->
  (forall f, In f files -> String.prefix toolId f = false) ->
  (forall e, In e entries -> member e "id" = VStr toolId ->
             existsSync (w_fs w) (member e "file") = false) ->
  execute w agent toolId payload = (w, Rejected (ToolNotFound toolId)).
Proof.
  intros Hfiles Hreg Hnone Hnofile.
  assert (Hres : resolveTool (w_fs w) toolId = Throw (ToolNotFound toolId)).
  { unfold resolveTool.
    rewrite (from_directory_miss _ toolId files Hfiles (find_file_none _ _ Hnone)).
    simpl. rewrite (from_registry_first _ toolId entries Hreg).
    destruct (first_entry toolId entries) as [e|] eqn:Hfirst; [|reflexivity].
    pose proof (find_some _ _ Hfirst) as (Hin & Hsame).
    apply same_value_true in Hsame.
    specialize (Hnofile e Hin Hsame).
    destruct (member e "file"); try reflexivity.
    simpl in Hnofile. destruct (w_fs w s); [discriminate | reflexivity]. }
  unfold execute, executeTool. now rewrite Hres.
Qed.

Lemma execute_not_found_witness :
  let w := installation lint_report (echo VNull) in
  execute w orchestrator "system-analyzer" VUndef
    = (w, Rejected (ToolNotFound "system-analyzer")).
Proof.
  intros w.
  apply (execute_not_found w orchestrator "system-analyzer" VUndef
           ["api-linter.md"; "hello-world.md"; "vision-processor.md"]
           [VObj [("id", VStr "system-analyzer");
                  ("file", VStr ".bmad-core/tools/system-analyzer.md")];
            VObj [("id", VStr "legacy-vision");
                  ("file", VStr "mcp/vision-processor.md")]]).
  - left. reflexivity.
  - split; [repeat constructor|].
    right. exists registry_index. repeat split. left. reflexivity.
  - simpl. intros f [<- | [<- | [<- | []]]]; reflexivity.
  - simpl. intros e [<- | [<- | []]] H; [reflexivity | discriminate].
Defined.

(** X2.  The empty identifier resolves to the first file that the tool
    directory lists. *)
Theorem resolveTool_empty_id (fs : filesystem) (first : string)
    (rest : list string) :
  fs TOOL_DIR = Some (Directory (first :: rest)) ->
  first <> "" ->
  resolveTool fs "" = readYAML fs (path_join TOOL_DIR first).
Proof.
  intros Hdir Hne.
  apply (resolveTool_from_directory fs "" first (first :: rest) Hdir); [|exact Hne].
  unfold find_file. simpl. now rewrite prefix_empty.
Qed.

Lemma resolveTool_empty_id_witness :
  resolveTool files "" = readYAML files (path_join TOOL_DIR "api-linter.md").
Proof.
  apply (resolveTool_empty_id files "api-linter.md"
           ["hello-world.md"; "vision-processor.md"]).
  - reflexivity.
  - discriminate.
Defined.

(** X3.  Resolution through the directory is closed under prefixes: when some
    listed name starts with an identifier, every non-empty prefix of that
    identifier also resolves to a listed file whose name starts with the
    prefix, without the registry being read. *)
Theorem resolveTool_prefix_closed (fs : filesystem) (toolId longer : string)
    (files : list string) :
  fs TOOL_DIR = Some (Directory files) ->
  toolId <> "" ->
  String.prefix toolId longer = true ->
  (exists f, In f files /\ String.prefix longer f = true) ->
  exists f', In f' files /\ String.prefix toolId f' = true /\
             resolveTool fs toolId = readYAML fs (path_join TOOL_DIR f').
Proof.
  intros Hdir Hne Hpre (f & Hin & Hf).
  destruct (find_file_exists toolId f files Hin (prefix_trans _ _ _ Hpre Hf))
    as (f' & Hfind).
  destruct (find_file_some _ _ _ Hfind) as (Hin' & Hp').
  exists f'. repeat split; try assumption.
  apply (resolveTool_from_directory fs toolId f' files Hdir Hfind).
  intros ->. apply prefix_of_empty in Hp'. contradiction.
Qed.

Lemma resolveTool_prefix_closed_witness :
  exists f', In f' ["api-linter.md"; "hello-world.md"; "vision-processor.md"] /\
             String.prefix "v" f' = true /\
             resolveTool files "v" = readYAML files (path_join TOOL_DIR f').
Proof.
  apply (resolveTool_prefix_closed files "v" "vision-processor").
  - reflexivity.
  - discriminate.
  - reflexivity.
  - exists "vision-processor.md". split; [simpl; tauto | reflexivity].
Defined.

Lemma find_entry_null (toolId : string) (before after : list value)
    (hole : value) :
  nullish hole = true ->
  Forall (fun e => nullish e = false /\ member e "id" <> VStr toolId) before ->
  find_entry toolId (before ++ hole :: after) = Throw TypeError.
Proof.
  intros Hhole. induction 1 as [|e rest (Hn & Hid) _ IH]; simpl.
  - unfold get. now rewrite Hhole.
  - rewrite (get_not_nullish _ _ Hn). simpl.
    now rewrite (same_value_distinct _ _ Hid).
Qed.

(** X4.  A null entry in the registry list ahead of any entry with the wanted
    id makes resolveTool raise a TypeError, not the not-found error, whatever
    follows it in the list. *)
Theorem resolveTool_null_registry_entry (fs : filesystem) (toolId : string)
    (files : list string) (reg hole : value) (before after : list value) :
  tool_files fs files ->
  (forall f, In f files -> String.prefix toolId f = false) ->
  fs REGISTRY_PATH = Some (File (Return reg)) ->
  member reg "registry" = VArr (before ++ hole :: after) ->
  nullish hole = true ->
  Forall (fun e => nullish e = false /\ member e "id" <> VStr toolId) before ->
  resolveTool fs toolId = Throw TypeError.
Proof.
  intros Hfiles Hnone Hfile Hlist Hhole Hbefore.
  assert (Hreg : nullish reg = false).
  { apply member_not_nullish with (k := "registry"). now rewrite Hlist. }
  unfold resolveTool.
  rewrite (from_directory_miss _ toolId files Hfiles (find_file_none _ _ Hnone)).
  simpl. unfold from_registry, existsSync. rewrite Hfile.
  unfold readYAML. rewrite Hfile. simpl.
  unfold registry_find. rewrite (get_not_nullish _ _ Hreg). simpl.
  rewrite Hlist. simpl.
  now rewrite (find_entry_null toolId before after hole Hhole Hbefore).
Qed.

Lemma resolveTool_null_registry_entry_witness :
  let fs : filesystem := fun path =>
    if (path =? REGISTRY_PATH)%string then
      Some (File (Return (VObj [("registry",
        VArr [VObj [("id", VStr "a"); ("file", VStr "a.md")];
              VNull;
              VObj [("id", VStr "b"); ("file", VStr "b.md")]])])))
    else if (path =? "b.md")%string then Some (File (Return hello_world))
    else None in
  resolveTool fs "b" = Throw TypeError.
Proof.
  intros fs.
  apply (resolveTool_null_registry_entry fs "b" []
           (VObj [("registry",
              VArr [VObj [("id", VStr "a"); ("file", VStr "a.md")];
                    VNull;
                    VObj [("id", VStr "b"); ("file", VStr "b.md")]])])
           VNull
           [VObj [("id", VStr "a"); ("file", VStr "a.md")]]
           [VObj [("id", VStr "b"); ("file", VStr "b.md")]]).
  - right. split; reflexivity.
  - intros f [].
  - reflexivity.
  - reflexivity.
  - reflexivity.
  - repeat constructor. discriminate.
Defined.

End MoreResolution.

(* ------------------------------------------------------------------ *)
(** ** Further properties of the access check *)
(* ------------------------------------------------------------------ *)
Section MoreAccess.
Import Scenarios.
Local Open Scope list_scope.

Lemma truthy_not_nullish (v : value) : truthy v = true -> nullish v = false.
Proof. destruct v; simpl; auto; discriminate. Qed.

Lemma normalize_not_nullish (e v : value) :
  nullish e = false -> normalize e = Return v -> nullish v = false.
Proof.
  intros Hn. unfold normalize. rewrite (get_not_nullish _ _ Hn). simpl.
  intros [= <-]. unfold or_else.
  destruct (truthy (member e "id")) eqn:Ht; [now apply truthy_not_nullish | exact Hn].
Qed.

Lemma normalize_all_not_nullish (entries vs : list value) :
  Forall (fun e => nullish e = false) entries ->
  mapM normalize entries = Return vs ->
  Forall (fun v => nullish v = false) vs.
Proof.
  intros Hall. revert vs. induction Hall as [|e rest He _ IH]; intros vs; simpl.
  - intros [= <-]. constructor.
  - destruct (normalize e) as [v|err] eqn:Hv; simpl; [|discriminate].
    destruct (mapM normalize rest) as [vs'|err]; simpl; [|discriminate].
    intros [= <-]. constructor; [|now apply IH].
    exact (normalize_not_nullish e v He Hv).
Qed.

Lemma includes_nullish (vs : list value) (x : value) :
  Forall (fun v => nullish v = false) vs ->
  nullish x = true ->
  includes vs x = false.
Proof.
  intros Hall Hx. unfold includes.
  induction Hall as [|v rest Hv _ IH]; simpl; [reflexivity|].
  rewrite IH, orb_false_r.
  destruct (same_value v x) eqn:E; [|reflexivity].
  apply same_value_true in E. subst. congruence.
Qed.

Lemma normalize_throws_TypeError (e : value) (err : error) :
  normalize e = Throw err -> err = TypeError.
Proof.
  unfold normalize, get. destruct (nullish e); simpl; congruence.
Qed.

Lemma normalize_all_null (entries : list value) :
  (exists e, In e entries /\ nullish e = true) ->
  mapM normalize entries = Throw TypeError.
Proof.
  induction entries as [|x rest IH]; intros (e & Hin & He); [contradiction|].
  simpl. destruct (normalize x) as [v|err] eqn:Hx; simpl.
  - destruct Hin as [-> | Hin].
    + unfold normalize, get in Hx. rewrite He in Hx. discriminate.
    + rewrite IH by eauto. reflexivity.
  - now rewrite (normalize_throws_TypeError x err Hx).
Qed.

(** X6.  For an agent other than the orchestrator with a well-formed allowed
    list and a definition that declares a non-empty string id, isAllowed
    returns true exactly when the id is in the normalized list, and false
    exactly when it is not; it never raises. *)
Theorem isAllowed_iff_listed (agent tool : value) (s : string)
    (entries : list value) :
  declares_allowed agent entries ->
  Forall (fun e => nullish e = false) entries ->
  member agent "id" <> VStr ORCHESTRATOR ->
  declared_id tool = Return (VStr s) ->
  s <> "" ->
  (isAllowed agent tool = Return true <-> In (VStr s) (map entry_id entries))
  /\ (isAllowed agent tool = Return false <-> ~ In (VStr s) (map entry_id entries)).
Proof.
  intros Hdecl Hall Hid Htid Hs.
  assert (Hyes : In (VStr s) (map entry_id entries) ->
                 isAllowed agent tool = Return true)
    by now apply isAllowed_listed.
  assert (Hno : forall b, isAllowed agent tool = Return b -> b = true ->
                          In (VStr s) (map entry_id entries)).
  { intros b Hb ->. rewrite (isAllowed_other agent tool (proj1 Hdecl) Hid) in Hb.
    destruct (allowed_of_declared agent entries Hdecl Hall) as (vs & Hvs & Hin).
    rewrite Hvs in Hb. simpl in Hb. unfold declared_id in Htid.
    destruct (get tool "tool") as [section|e]; simpl in *; [|discriminate].
    injection Htid as Htid. rewrite Htid in Hb. injection Hb as Hb.
    now apply Hin. }
  assert (Hsome : exists b, isAllowed agent tool = Return b).
  { rewrite (isAllowed_other agent tool (proj1 Hdecl) Hid).
    destruct (allowed_of_declared agent entries Hdecl Hall) as (vs & -> & _).
    simpl. unfold declared_id in Htid.
    destruct (get tool "tool") as [section|e]; simpl in *; [|discriminate].
    eauto. }
  destruct Hsome as ([|] & Hb); rewrite Hb; split; split; intros H;
    try reflexivity; try discriminate.
  - now apply (Hno true).
  - exfalso. apply H. now apply (Hno true).
  - specialize (Hyes H). congruence.
  - intros Hin. specialize (Hyes Hin). congruence.
Qed.

Lemma isAllowed_iff_listed_witness :
  isAllowed analyst vision_processor = Return true
  /\ isAllowed analyst hello_world = Return false.
Proof.
  split.
  - apply (proj1 (isAllowed_iff_listed analyst vision_processor "vision-processor"
                    [VObj [("id", VStr "vision-processor")]; VStr "api-linter"]
                    (conj eq_refl (or_introl eq_refl))
                    ltac:(repeat constructor) ltac:(discriminate) eq_refl
                    ltac:(discriminate))).
    simpl. tauto.
  - apply (proj2 (isAllowed_iff_listed analyst hello_world "hello-world"
                    [VObj [("id", VStr "vision-processor")]; VStr "api-linter"]
                    (conj eq_refl (or_introl eq_refl))
                    ltac:(repeat constructor) ltac:(discriminate) eq_refl
                    ltac:(discriminate))).
    simpl. intros [H | [H | []]]; discriminate.
Defined.

(** X7.  A definition that declares no id (or a null one) is denied to every
    agent other than the orchestrator, whatever its allowed list holds. *)
Theorem isAllowed_tool_without_id (agent tool tid : value)
    (entries : list value) :
  declares_allowed agent entries ->
  Forall (fun e => nullish e = false) entries ->
  member agent "id" <> VStr ORCHESTRATOR ->
  declared_id tool = Return tid ->
  nullish tid = true ->
  isAllowed agent tool = Return false.
Proof.
  intros Hdecl Hall Hid Htid Hnull.
  rewrite (isAllowed_other agent tool (proj1 Hdecl) Hid).
  unfold declared_id in Htid.
  destruct (get tool "tool") as [section|e]; simpl in Htid; [|discriminate].
  injection Htid as Htid.
  unfold allowed_of. destruct Hdecl as (_ & [-> | (-> & ->)]); simpl.
  - destruct (normalize_all entries Hall) as (vs & Hvs & _).
    rewrite Hvs. simpl. rewrite Htid.
    now rewrite (includes_nullish vs tid
                   (normalize_all_not_nullish entries vs Hall Hvs) Hnull).
  - reflexivity.
Qed.

Lemma isAllowed_tool_without_id_witness :
  isAllowed (VObj [("id", VStr "dev");
                   ("tools", VObj [("allowed", VArr [VObj [("name", VStr "x")];
                                                     VStr "undefined"])])])
            (VObj [("tool", VObj [("type", VStr "local")])])
    = Return false.
Proof.
  apply (isAllowed_tool_without_id _ _ VUndef
           [VObj [("name", VStr "x")]; VStr "undefined"]).
  - split; [reflexivity | left; reflexivity].
  - repeat constructor.
  - discriminate.
  - reflexivity.
  - reflexivity.
Defined.

(** X8.  When tools.allowed is present but is not a list (a single identifier,
    a number, a map), isAllowed raises a TypeError for every agent other than
    the orchestrator and every tool. *)
Theorem isAllowed_allowed_not_a_list (agent tool allowed : value) :
  nullish agent = false ->
  member agent "id" <> VStr ORCHESTRATOR ->
  get_opt (get_opt agent "tools") "allowed" = allowed ->
  nullish allowed = false ->
  (forall entries, allowed <> VArr entries) ->
  isAllowed agent tool = Throw TypeError.
Proof.
  intros Hn Hid Hallowed Hnn Hnot.
  rewrite (isAllowed_other agent tool Hn Hid).
  unfold allowed_of. rewrite Hallowed, Hnn.
  destruct allowed; try reflexivity. now elim (Hnot items).
Qed.

Lemma isAllowed_allowed_not_a_list_witness :
  isAllowed (VObj [("id", VStr "dev");
                   ("tools", VObj [("allowed", VStr "hello-world")])])
            hello_world
    = Throw TypeError.
Proof.
  apply (isAllowed_allowed_not_a_list _ _ (VStr "hello-world")).
  - reflexivity.
  - discriminate.
  - reflexivity.
  - reflexivity.
  - discriminate.
Defined.

(** X9.  A null entry anywhere in tools.allowed makes isAllowed raise a
    TypeError for every agent other than the orchestrator, also for a tool
    that another entry lists. *)
Theorem isAllowed_null_entry (agent tool : value) (entries : list value) :
  nullish agent = false ->
  member agent "id" <> VStr ORCHESTRATOR ->
  get_opt (get_opt agent "tools") "allowed" = VArr entries ->
  (exists e, In e entries /\ nullish e = true) ->
  isAllowed agent tool = Throw TypeError.
Proof.
  intros Hn Hid Hallowed Hnull.
  rewrite (isAllowed_other agent tool Hn Hid).
  unfold allowed_of. rewrite Hallowed. simpl.
  now rewrite (normalize_all_null entries Hnull).
Qed.

Lemma isAllowed_null_entry_witness :
  isAllowed (VObj [("id", VStr "dev");
                   ("tools", VObj [("allowed", VArr [VStr "hello-world"; VNull])])])
            hello_world
    = Throw TypeError.
Proof.
  apply (isAllowed_null_entry _ _ [VStr "hello-world"; VNull]).
  - reflexivity.
  - discriminate.
  - reflexivity.
  - exists VNull. split; [simpl; tauto | reflexivity].
Defined.

End MoreAccess.

(* ------------------------------------------------------------------ *)
(** ** Further properties of executeTool *)
(* ------------------------------------------------------------------ *)
Section MoreExecution.
Import Scenarios.
Local Open Scope list_scope.



(** X11.  For an allowed tool of type local, executeTool imports the module at
    the entrypoint and then calls its run with the payload (by default {}):
    the call ends as run ends.  When the import fails, the call fails with the
    same reason and run is never called. *)
Theorem execute_local (w : world) (agent : value) (toolId : string)
    (payload tool section : value) :
  resolveTool (w_fs w) toolId = Return tool ->
  isAllowed agent tool = Return true ->
  get tool "tool" = Return section ->
  member section "type" = VStr "local" ->
  (forall m, w_import w (member section "entrypoint") = Fulfilled m ->
     execute w agent toolId payload
       = (log (Ran (default_payload payload))
            (log (Imported (member section "entrypoint")) w),
          m (default_payload payload)))
  /\ (forall e, w_import w (member section "entrypoint") = Rejected e ->
     execute w agent toolId payload
       = (log (Imported (member section "entrypoint")) w, Rejected e)).
Proof.
  intros Hres Hok Hsec Htype.
  rewrite (execute_allowed w agent toolId payload tool Hres Hok).
  unfold dispatch. rewrite Hsec, (section_type _ _ Htype). simpl.
  split.
  - intros m ->. simpl. now destruct (m (default_payload payload)).
  - intros e ->. reflexivity.
Qed.

Lemma execute_local_witness :
  let w := installation lint_report failing in
  execute w architect "hello-world" VUndef
    = (log (Ran (VObj []))
         (log (Imported (VStr "./bmad-core/runtime/tools/hello-world.js")) w),
       Fulfilled (VObj [("message", VStr "Hello from BMAD Tools!")])).
Proof.
  intros w.
  apply (proj1 (execute_local w architect "hello-world" VUndef hello_world
                  (member hello_world "tool") eq_refl eq_refl eq_refl eq_refl)
           hello_module eq_refl).
Defined.

Lemma pump_done (is_done : socket -> bool) (events : list net_event)
    (s : socket) :
  is_done s = true -> pump is_done events s = (s, events).
Proof. intros H. destruct events; simpl; now rewrite H. Qed.

(** The socket that connectMCP creates, for some behaviours of the server. *)
Lemma run_mcp_events (w : world) (server namespace toolId payload token : value)
    (events : list net_event) :
  read_token (w_fs w) server = Return token ->
  w_network w (List.length (w_sockets w)) = events ->
  let s0 := new_socket server namespace token in
  let c := List.length (w_sockets w) in
  let tree := Await (Connect server namespace) (fun c =>
                Await (Call c toolId payload) (fun out => Done (Return out))) in
  match events with
  | Open :: Tick :: Message body :: rest =>
      snd (run w tree) = Fulfilled body
      /\ w_sockets (fst (run w tree))
         = w_sockets w ++ [handle (Message body) (call toolId payload (handle Open s0))]
      /\ w_network (fst (run w tree)) c = rest
  | [Open; Message body] =>
      snd (run w tree) = Pending
      /\ w_sockets (fst (run w tree))
         = w_sockets w ++ [call toolId payload (handle Open s0)]
  | [Open] =>
      snd (run w tree) = Pending
      /\ w_sockets (fst (run w tree))
         = w_sockets w ++ [call toolId payload (handle Open s0)]
  | Error reason :: rest =>
      snd (run w tree) = Rejected (External reason)
      /\ w_sockets (fst (run w tree)) = w_sockets w ++ [handle (Error reason) s0]
      /\ w_network (fst (run w tree)) c = rest
  | _ => True
  end.
Proof.
  intros Hread Hnet s0 c tree.
  destruct events as [|e1 [|e2 [|e3 rest]]]; try exact I;
    destruct e1; try exact I; try destruct e2; try exact I;
    try destruct e3; try exact I;
    unfold tree; simpl; unfold perform_connect, connectMCP;
    rewrite Hread; simpl; rewrite nth_middle, Hnet; simpl;
    unfold on_open; simpl; try destruct (truthy token); simpl;
    unfold perform_call; simpl;
    repeat (progress (rewrite ?replace_nth_last, ?nth_error_last, ?Nat.eqb_refl;
                      simpl));
    try (rewrite pump_done by reflexivity; simpl);
    repeat (progress (rewrite ?replace_nth_last, ?nth_error_last, ?Nat.eqb_refl;
                      simpl));
    auto.
Qed.

End MoreExecution.

(* ------------------------------------------------------------------ *)
(** ** Further properties of the MCP adapter *)
(* ------------------------------------------------------------------ *)
Section MoreMcpAdapter.
Import Scenarios.
Local Open Scope list_scope.

(** X12.  For an allowed tool of type mcp whose server accepts the connection
    and, in a later turn of the event loop, sends a JSON message, executeTool
    returns the decoded message.  On the
    new socket it has sent the auth frame, when a token is configured,
    followed by one invoke frame whose namespace is the tool's entrypoint and
    whose toolId is the identifier the caller passed (not the id that the
    definition declares). *)
Theorem execute_mcp_reply (w : world) (agent : value) (toolId : string)
    (payload tool section token body : value) (rest : list net_event) :
  resolveTool (w_fs w) toolId = Return tool ->
  isAllowed agent tool = Return true ->
  get tool "tool" = Return section ->
  member section "type" = VStr "mcp" ->
  read_token (w_fs w) (member section "mcpServer") = Return token ->
  w_network w (List.length (w_sockets w)) = Open :: Tick :: Message body :: rest ->
  snd (execute w agent toolId payload) = Fulfilled body
  /\ (exists s,
        w_sockets (fst (execute w agent toolId payload)) = w_sockets w ++ [s]
        /\ ws_server s = member section "mcpServer"
        /\ ws_sent s
           = (if truthy token then [auth_message token] else [])
             ++ [invoke_message (member section "entrypoint") (VStr toolId)
                   (default_payload payload)]
        /\ ws_once s = [])
  /\ w_network (fst (execute w agent toolId payload)) (List.length (w_sockets w))
     = rest.
Proof.
  intros Hres Hok Hsec Htype Hread Hnet.
  rewrite (execute_allowed w agent toolId payload tool Hres Hok).
  rewrite (dispatch_mcp tool section toolId _ Hsec Htype).
  pose proof (run_mcp_events w (member section "mcpServer")
                (member section "entrypoint") (VStr toolId)
                (default_payload payload) token _ Hread Hnet) as H.
  simpl in H. destruct H as (Hout & Hsock & Hrest).
  split; [exact Hout|]. split; [|exact Hrest].
  eexists. split; [exact Hsock|].
  unfold on_open. simpl. destruct (truthy token); simpl; auto.
Qed.

Lemma execute_mcp_reply_witness :
  snd (execute (installation lint_report (echo (VNum 7))) analyst "vision"
         (VNum 7))
    = Fulfilled (VObj [("received", VNum 7)]).
Proof.
  apply (execute_mcp_reply (installation lint_report (echo (VNum 7))) analyst
           "vision" (VNum 7) vision_processor (member vision_processor "tool")
           (VStr "s3cret") (VObj [("received", VNum 7)]) []
           eq_refl eq_refl eq_refl eq_refl eq_refl eq_refl).
Defined.

(** X13.  When the socket of an mcp tool fails before it opens, executeTool
    fails with the reason of the socket error and nothing has been sent on the
    socket. *)
Theorem execute_mcp_connect_error (w : world) (agent : value) (toolId : string)
    (payload tool section token reason : value) (rest : list net_event) :
  resolveTool (w_fs w) toolId = Return tool ->
  isAllowed agent tool = Return true ->
  get tool "tool" = Return section ->
  member section "type" = VStr "mcp" ->
  read_token (w_fs w) (member section "mcpServer") = Return token ->
  w_network w (List.length (w_sockets w)) = Error reason :: rest ->
  snd (execute w agent toolId payload) = Rejected (External reason)
  /\ exists s,
       w_sockets (fst (execute w agent toolId payload)) = w_sockets w ++ [s]
       /\ ws_sent s = [] /\ ws_calls s = [].
Proof.
  intros Hres Hok Hsec Htype Hread Hnet.
  rewrite (execute_allowed w agent toolId payload tool Hres Hok).
  rewrite (dispatch_mcp tool section toolId _ Hsec Htype).
  pose proof (run_mcp_events w (member section "mcpServer")
                (member section "entrypoint") (VStr toolId)
                (default_payload payload) token _ Hread Hnet) as H.
  simpl in H. destruct H as (Hout & Hsock & _).
  split; [exact Hout|]. eexists. split; [exact Hsock|]. auto.
Qed.

Lemma execute_mcp_connect_error_witness :
  snd (execute (installation lint_report
                  (fun _ => [Error (VStr "ECONNREFUSED")]))
         analyst "vision-processor" VUndef)
    = Rejected (External (VStr "ECONNREFUSED")).
Proof.
  apply (execute_mcp_connect_error
           (installation lint_report (fun _ => [Error (VStr "ECONNREFUSED")]))
           analyst "vision-processor" VUndef vision_processor
           (member vision_processor "tool") (VStr "s3cret")
           (VStr "ECONNREFUSED") []
           eq_refl eq_refl eq_refl eq_refl eq_refl eq_refl).
Defined.

(** X14.  When the server of an mcp tool accepts the connection and never
    sends a message, executeTool stays pending: the invoke frame has been
    sent and the listener of the call is still registered; there is no
    timeout. *)
Theorem execute_mcp_no_answer (w : world) (agent : value) (toolId : string)
    (payload tool section token : value) :
  resolveTool (w_fs w) toolId = Return tool ->
  isAllowed agent tool = Return true ->
  get tool "tool" = Return section ->
  member section "type" = VStr "mcp" ->
  read_token (w_fs w) (member section "mcpServer") = Return token ->
  w_network w (List.length (w_sockets w)) = [Open] ->
  snd (execute w agent toolId payload) = Pending
  /\ exists s,
       w_sockets (fst (execute w agent toolId payload)) = w_sockets w ++ [s]
       /\ In (invoke_message (member section "entrypoint") (VStr toolId)
                (default_payload payload)) (ws_sent s)
       /\ ws_calls s = [Pending] /\ ws_once s = [0%nat].
Proof.
  intros Hres Hok Hsec Htype Hread Hnet.
  rewrite (execute_allowed w agent toolId payload tool Hres Hok).
  rewrite (dispatch_mcp tool section toolId _ Hsec Htype).
  pose proof (run_mcp_events w (member section "mcpServer")
                (member section "entrypoint") (VStr toolId)
                (default_payload payload) token _ Hread Hnet) as H.
  simpl in H. destruct H as (Hout & Hsock).
  split; [exact Hout|]. eexists. split; [exact Hsock|].
  unfold on_open. simpl. destruct (truthy token); simpl; auto.
Qed.

Lemma execute_mcp_no_answer_witness :
  snd (execute (installation lint_report (fun _ => [Open]))
         analyst "vision-processor" VUndef)
    = Pending.
Proof.
  apply (execute_mcp_no_answer (installation lint_report (fun _ => [Open]))
           analyst "vision-processor" VUndef vision_processor
           (member vision_processor "tool") (VStr "s3cret")
           eq_refl eq_refl eq_refl eq_refl eq_refl eq_refl).
Defined.

(** X30.  When the server of an mcp tool sends its message in the turn of the
    event loop in which the connection opens, before executeTool has resumed
    and registered the listener of its call, the message is lost: executeTool
    stays pending with the invoke frame sent and the listener of the call
    still registered. *)
Theorem execute_mcp_early_message (w : world) (agent : value) (toolId : string)
    (payload tool section token body : value) :
  resolveTool (w_fs w) toolId = Return tool ->
  isAllowed agent tool = Return true ->
  get tool "tool" = Return section ->
  member section "type" = VStr "mcp" ->
  read_token (w_fs w) (member section "mcpServer") = Return token ->
  w_network w (List.length (w_sockets w)) = [Open; Message body] ->
  snd (execute w agent toolId payload) = Pending
  /\ exists s,
       w_sockets (fst (execute w agent toolId payload)) = w_sockets w ++ [s]
       /\ In (invoke_message (member section "entrypoint") (VStr toolId)
                (default_payload payload)) (ws_sent s)
       /\ ws_calls s = [Pending] /\ ws_once s = [0%nat].
Proof.
  intros Hres Hok Hsec Htype Hread Hnet.
  rewrite (execute_allowed w agent toolId payload tool Hres Hok).
  rewrite (dispatch_mcp tool section toolId _ Hsec Htype).
  pose proof (run_mcp_events w (member section "mcpServer")
                (member section "entrypoint") (VStr toolId)
                (default_payload payload) token _ Hread Hnet) as H.
  simpl in H. destruct H as (Hout & Hsock).
  split; [exact Hout|]. eexists. split; [exact Hsock|].
  unfold on_open. simpl. destruct (truthy token); simpl; auto.
Qed.

Lemma execute_mcp_early_message_witness :
  snd (execute (installation lint_report
                  (fun _ => [Open; Message (VObj [("result", VStr "ok")])]))
         analyst "vision-processor" VUndef)
    = Pending.
Proof.
  apply (execute_mcp_early_message
           (installation lint_report
              (fun _ => [Open; Message (VObj [("result", VStr "ok")])]))
           analyst "vision-processor" VUndef vision_processor
           (member vision_processor "tool") (VStr "s3cret")
           (VObj [("result", VStr "ok")])
           eq_refl eq_refl eq_refl eq_refl eq_refl eq_refl).
Defined.

(** X15.  When the credential file exists and cannot be read as YAML,
    executeTool on an mcp tool fails with the error of the read, and no socket
    is created. *)
Theorem execute_mcp_unreadable_credentials (w : world) (agent : value)
    (toolId : string) (payload tool section : value) (e : error) :
  resolveTool (w_fs w) toolId = Return tool ->
  isAllowed agent tool = Return true ->
  get tool "tool" = Return section ->
  member section "type" = VStr "mcp" ->
  w_fs w AUTH_FILE = Some (File (Throw e)) ->
  execute w agent toolId payload = (w, Rejected e).
Proof.
  intros Hres Hok Hsec Htype Hauth.
  rewrite (execute_allowed w agent toolId payload tool Hres Hok).
  rewrite (dispatch_mcp tool section toolId _ Hsec Htype).
  simpl. unfold perform_connect, connectMCP, read_token, existsSync, readYAML.
  rewrite Hauth. reflexivity.
Qed.

Lemma execute_mcp_unreadable_credentials_witness :
  let w := {| w_fs := fun path =>
                if (path =? AUTH_FILE)%string
                then Some (File (Throw (FsError AUTH_FILE)))
                else files path;
              w_import := fun _ => Pending;
              w_fetch := fun _ _ => Pending;
              w_network := echo VNull;
              w_sockets := [];
              w_log := [] |} in
  execute w analyst "vision-processor" VUndef = (w, Rejected (FsError AUTH_FILE)).
Proof.
  intros w.
  apply (execute_mcp_unreadable_credentials w analyst "vision-processor" VUndef
           vision_processor (member vision_processor "tool") (FsError AUTH_FILE)
           eq_refl eq_refl eq_refl eq_refl eq_refl).
Defined.

End MoreMcpAdapter.

(* ------------------------------------------------------------------ *)
(** ** Further properties of the MCP client *)
(* ------------------------------------------------------------------ *)
Section MoreMcpClient.
Import Scenarios.
Local Open Scope list_scope.

Lemma settle_all_length (body : value) (listeners : list nat)
    (calls : list (outcome value)) :
  List.length (settle_all body listeners calls) = List.length calls.
Proof.
  unfold settle_all. revert calls.
  induction listeners as [|i rest IH]; intros calls; simpl; [reflexivity|].
  rewrite IH. apply settle_call_length.
Qed.

Lemma fulfilled_in_range (n : nat) (calls : list (outcome value)) (v : value) :
  nth n calls Pending = Fulfilled v -> (n < List.length calls)%nat.
Proof.
  intros H. destruct (Nat.lt_ge_cases n (List.length calls)) as [|Hge];
    [assumption|].
  rewrite (nth_overflow _ _ Hge) in H. discriminate.
Qed.

Lemma settle_call_fulfilled (i n : nat) (body v : value)
    (calls : list (outcome value)) :
  nth n calls Pending = Fulfilled v ->
  nth n (settle_call i body calls) Pending = Fulfilled v.
Proof.
  intros H. destruct (Nat.eq_dec i n) as [-> | Hne].
  - rewrite (settle_call_same _ _ _ (fulfilled_in_range _ _ _ H)).
    now rewrite H.
  - now rewrite (settle_call_other _ _ _ _ Hne).
Qed.

Lemma settle_all_fulfilled (body v : value) (listeners : list nat)
    (calls : list (outcome value)) (n : nat) :
  nth n calls Pending = Fulfilled v ->
  nth n (settle_all body listeners calls) Pending = Fulfilled v.
Proof.
  unfold settle_all. revert calls.
  induction listeners as [|i rest IH]; intros calls H; simpl; [assumption|].
  apply IH. now apply settle_call_fulfilled.
Qed.

Lemma listeners_ok_new (server namespace token : value) :
  listeners_ok (new_socket server namespace token).
Proof. intros n []. Qed.

Lemma listeners_ok_step (s s' : socket) :
  listeners_ok s -> step s s' -> listeners_ok s'.
Proof.
  intros Hok Hstep.
  destruct Hstep as [[|body|reason| |] s | toolId payload s _].
  - unfold handle, on_open. destruct (truthy (ws_token s)); exact Hok.
  - intros n [].
  - exact Hok.
  - intros n Hin. apply (Hok n). simpl in Hin.
    destruct (ws_once s); [contradiction | now right].
  - exact Hok.
  - intros n. unfold call_promise. simpl. rewrite length_app. simpl.
    intros Hin. apply in_app_or in Hin. destruct Hin as [Hin | [<- | []]].
    + destruct (Hok n Hin) as (Hlt & Hp).
      split; [lia|]. now rewrite app_nth1.
    + split; [lia|]. now rewrite nth_middle.
Qed.

Lemma listeners_ok_reachable (s : socket) : reachable s -> listeners_ok s.
Proof.
  intros (server & namespace & token & Hsteps).
  remember (new_socket server namespace token) as s0 eqn:E.
  induction Hsteps as [s | s1 s2 s3 _ IH Hstep].
  - subst. apply listeners_ok_new.
  - eapply listeners_ok_step; [apply IH; exact E | exact Hstep].
Qed.

Lemma settle_all_not_rejected (body : value) (listeners : list nat)
    (calls : list (outcome value)) (n : nat) :
  (forall e, nth n calls Pending <> Rejected e) ->
  forall e, nth n (settle_all body listeners calls) Pending <> Rejected e.
Proof.
  intros Hnot e.
  destruct (Nat.lt_ge_cases n (List.length calls)) as [Hlt | Hge].
  - destruct (in_dec Nat.eq_dec n listeners) as [Hin | Hout].
    + rewrite (settle_all_listener _ _ _ _ Hin Hlt).
      specialize (Hnot e). now destruct (nth n calls Pending).
    + rewrite (settle_all_other _ _ _ _ Hout). apply Hnot.
  - rewrite nth_overflow by (now rewrite settle_all_length). discriminate.
Qed.

Lemma no_rejection_step (s s' : socket) :
  no_rejection s -> step s s' -> no_rejection s'.
Proof.
  intros Hok Hstep.
  destruct Hstep as [[|body|reason| |] s | toolId payload s _];
    try exact Hok.
  - unfold handle, on_open. destruct (truthy (ws_token s)); exact Hok.
  - intros n. unfold call_promise. simpl.
    apply settle_all_not_rejected. apply (Hok n).
  - intros n e. unfold call_promise. simpl.
    destruct (Nat.lt_ge_cases n (List.length (ws_calls s))) as [Hlt | Hge].
    + rewrite app_nth1 by exact Hlt. apply (Hok n).
    + destruct (Nat.eq_dec n (List.length (ws_calls s))) as [-> | Hne].
      * rewrite nth_middle. discriminate.
      * rewrite nth_overflow by (rewrite length_app; simpl; lia). discriminate.
Qed.

(** X19.  On a socket created by connectMCP the promise of a call is never
    rejected, whatever events and calls follow: it is pending or fulfilled. *)
Theorem call_never_rejected (s : socket) (n : nat) (e : error) :
  reachable s ->
  call_promise n s <> Rejected e.
Proof.
  intros (server & namespace & token & Hsteps).
  assert (Hinv : no_rejection s).
  { remember (new_socket server namespace token) as s0 eqn:E.
    induction Hsteps as [s | s1 s2 s3 _ IH Hstep].
    - subst. intros k e'. unfold call_promise. simpl. now destruct k.
    - eapply no_rejection_step; [apply IH; exact E | exact Hstep]. }
  apply Hinv.
Qed.

Lemma call_never_rejected_witness :
  call_promise 0
    (handle (Error (VStr "ECONNRESET"))
       (call (VStr "vision") VNull
          (handle Open (new_socket (VStr "wss://x") (VStr "ns") VNull))))
    <> Rejected (External (VStr "ECONNRESET")).
Proof.
  apply call_never_rejected.
  exists (VStr "wss://x"), (VStr "ns"), VNull.
  eapply steps_snoc; [eapply steps_snoc; [eapply steps_snoc|]|].
  - apply steps_refl.
  - apply (step_event Open).
  - apply (step_call (VStr "vision") VNull). reflexivity.
  - apply (step_event (Error (VStr "ECONNRESET"))).
Defined.

(** X20.  On a socket created by connectMCP one incoming JSON message fulfils,
    with its body, every call whose listener is still registered, whichever
    call it was meant for, and leaves no listener; a call without a
    registered listener is left as it is. *)
Theorem message_settles_all_calls (s : socket) (body : value) (n : nat) :
  reachable s ->
  (In n (ws_once s) ->
     call_promise n (handle (Message body) s) = Fulfilled body)
  /\ (~ In n (ws_once s) ->
     call_promise n (handle (Message body) s) = call_promise n s)
  /\ ws_once (handle (Message body) s) = [].
Proof.
  intros Hreach. split; [|split; [|reflexivity]].
  - intros Hin.
    destruct (listeners_ok_reachable s Hreach n Hin) as (Hlt & Hp).
    simpl. rewrite (on_message_listener body s n Hin Hlt). now rewrite Hp.
  - intros Hout. unfold call_promise. simpl. now apply settle_all_other.
Qed.

Lemma message_settles_all_calls_witness :
  let s := call (VStr "b") VNull
             (call (VStr "a") VNull
                (handle Open (new_socket (VStr "wss://x") (VStr "ns") VNull))) in
  call_promise 0 (handle (Message (VNum 5)) s) = Fulfilled (VNum 5)
  /\ call_promise 1 (handle (Message (VNum 5)) s) = Fulfilled (VNum 5).
Proof.
  intros s.
  assert (Hreach : reachable s).
  { exists (VStr "wss://x"), (VStr "ns"), VNull.
    eapply steps_snoc; [eapply steps_snoc; [eapply steps_snoc|]|].
    - apply steps_refl.
    - apply (step_event Open).
    - apply (step_call (VStr "a") VNull). reflexivity.
    - apply (step_call (VStr "b") VNull). reflexivity. }
  split.
  - apply (proj1 (message_settles_all_calls s (VNum 5) 0 Hreach)).
    simpl. tauto.
  - apply (proj1 (message_settles_all_calls s (VNum 5) 1 Hreach)).
    simpl. tauto.
Defined.

(** X21.  On a socket created by connectMCP the number of invoke frames sent
    equals the number of calls made: a call sends its frame once and nothing
    resends it. *)
Theorem one_invoke_per_call (s : socket) :
  reachable s ->
  invokes s = List.length (ws_calls s).
Proof.
  intros (server & namespace & token & Hsteps).
  remember (new_socket server namespace token) as s0 eqn:E.
  induction Hsteps as [s | s1 s2 s3 _ IH Hstep].
  - subst. reflexivity.
  - specialize (IH E). unfold invokes in *.
    destruct Hstep as [[|body|reason| |] s2 | toolId payload s2 _]; simpl.
    + unfold on_open. destruct (truthy (ws_token s2)); simpl; [|exact IH].
      rewrite filter_app, length_app. simpl. lia.
    + rewrite settle_all_length. exact IH.
    + exact IH.
    + exact IH.
    + exact IH.
    + rewrite filter_app, !length_app. simpl. lia.
Qed.

Lemma one_invoke_per_call_witness :
  invokes (call (VStr "b") VNull
             (call (VStr "a") VNull
                (handle Open
                   (new_socket (VStr "wss://x") (VStr "ns") (VStr "t")))))
    = 2%nat.
Proof.
  apply (one_invoke_per_call
           (call (VStr "b") VNull
              (call (VStr "a") VNull
                 (handle Open
                    (new_socket (VStr "wss://x") (VStr "ns") (VStr "t")))))).
  exists (VStr "wss://x"), (VStr "ns"), (VStr "t").
  eapply steps_snoc; [eapply steps_snoc; [eapply steps_snoc|]|].
  - apply steps_refl.
  - apply (step_event Open).
  - apply (step_call (VStr "a") VNull). reflexivity.
  - apply (step_call (VStr "b") VNull). reflexivity.
Defined.

(** X22.  On a socket created by connectMCP for a server without a configured
    token (no credential file, no entry for the server, or an empty token), no
    authentication frame is ever sent: every frame on the socket is an invoke
    frame. *)
Theorem no_token_no_auth (fs : filesystem) (sockets sockets' : list socket)
    (server namespace : value) (c : nat) (s0 s : socket) :
  read_token fs server = Return VNull ->
  connectMCP fs sockets server namespace = Return (sockets', c) ->
  nth_error sockets' c = Some s0 ->
  steps s0 s ->
  only_invokes s
  /\ forall token, ~ In (auth_message token) (ws_sent s).
Proof.
  intros Hread Hconn Hnth Hsteps.
  unfold connectMCP in Hconn. rewrite Hread in Hconn. simpl in Hconn.
  injection Hconn as <- <-.
  rewrite nth_error_last in Hnth. injection Hnth as <-.
  assert (Hinv : ws_token s = VNull /\ only_invokes s).
  { remember (new_socket server namespace VNull) as s0 eqn:E.
    induction Hsteps as [s | s1 s2 s3 _ IH Hstep].
    - subst. split; [reflexivity | constructor].
    - destruct (IH E) as (Htok & Hall). clear IH.
      destruct Hstep as [[|body|reason| |] s2 | toolId payload s2 _];
        unfold only_invokes in *; simpl.
      + unfold on_open. rewrite Htok. simpl. auto.
      + auto.
      + auto.
      + auto.
      + auto.
      + split; [exact Htok|]. apply Forall_app. split; [exact Hall|].
        constructor; [eauto | constructor]. }
  destruct Hinv as (_ & Hall). split; [exact Hall|].
  intros token Hin. unfold only_invokes in Hall.
  rewrite Forall_forall in Hall.
  destruct (Hall _ Hin) as (toolId & payload & Heq). discriminate.
Qed.

Lemma no_token_no_auth_witness :
  let s0 := new_socket (VStr "wss://other.bmad.ai") (VStr "ns") VNull in
  ~ In (auth_message (VStr "s3cret"))
       (ws_sent (call (VStr "t") VNull (handle Open s0))).
Proof.
  intros s0.
  apply (proj2 (no_token_no_auth files [] [s0] (VStr "wss://other.bmad.ai")
                  (VStr "ns") 0%nat s0 (call (VStr "t") VNull (handle Open s0))
                  eq_refl eq_refl eq_refl
                  (steps_snoc _ _ _
                     (steps_snoc _ _ _ (steps_refl s0) (step_event Open s0))
                     (step_call (VStr "t") VNull (handle Open s0) eq_refl)))).
Defined.

End MoreMcpClient.

(* ------------------------------------------------------------------ *)
(** ** Properties of showToolHelp *)
(* ------------------------------------------------------------------ *)
Section Help.
Import Scenarios.
Local Open Scope list_scope.

Lemma get_section_tool (tool section : value) :
  get tool "tool" = Return section -> nullish tool = false.
Proof. unfold get. destruct (nullish tool); [discriminate | reflexivity]. Qed.

(** X23.  For a definition without a documentation section whose title (or
    name, when it has no title) is a string, showToolHelp prints two lines and
    ends normally: the heading built from that string, and "No description
    provided.". *)
Theorem showToolHelp_without_documentation (fs : filesystem) (toolId : string)
    (tool section : value) (heading : string) :
  resolveTool fs toolId = Return tool ->
  get tool "tool" = Return section ->
  nullish section = false ->
  heading_of section = VStr heading ->
  truthy (member tool "documentation") = false ->
  showToolHelp fs toolId
    = ([VStr ("=== " ++ heading ++ " ===")%string;
        VStr "No description provided."], None).
Proof.
  intros Hres Hsec Hn Hhead Hdoc. unfold showToolHelp. rewrite Hres.
  rewrite (get_not_nullish _ _ (get_section_tool _ _ Hsec)).
  rewrite Hsec. cbn [bind]. rewrite (get_not_nullish _ _ Hn). cbn [bind].
  unfold heading_of in Hhead. rewrite Hhead. cbn [ToString].
  assert (Hd : or_else (member tool "documentation") (VObj []) = VObj []).
  { unfold or_else. now rewrite Hdoc. }
  rewrite Hd. reflexivity.
Qed.

Lemma showToolHelp_without_documentation_witness :
  let fs : filesystem := fun path =>
    if (path =? TOOL_DIR)%string then Some (Directory ["lint.md"])
    else if (path =? ".bmad-core/tools/lint.md")%string then
      Some (File (Return (VObj [("tool", VObj [("id", VStr "lint");
                                               ("name", VStr "Linter")])])))
    else None in
  showToolHelp fs "lint"
    = ([VStr "=== Linter ==="; VStr "No description provided."], None).
Proof.
  intros fs.
  apply (showToolHelp_without_documentation fs "lint"
           (VObj [("tool", VObj [("id", VStr "lint"); ("name", VStr "Linter")])])
           (VObj [("id", VStr "lint"); ("name", VStr "Linter")]) "Linter"
           eq_refl eq_refl eq_refl eq_refl eq_refl).
Defined.

(** X24.  For every definition that resolves and has a tool section whose
    title (or name, when it has no title) is a string, showToolHelp prints the
    heading built from that string, then a description line that is never a
    falsy value, then at most two more lines (usage, example), each a string
    that starts with a line break. *)
Theorem showToolHelp_lines (fs : filesystem) (toolId : string)
    (tool section : value) (heading : string) :
  resolveTool fs toolId = Return tool ->
  get tool "tool" = Return section ->
  nullish section = false ->
  heading_of section = VStr heading ->
  exists description more,
    fst (showToolHelp fs toolId)
      = VStr ("=== " ++ heading ++ " ===")%string :: description :: more
    /\ truthy description = true
    /\ (List.length more <= 2)%nat
    /\ Forall (fun line => exists text, line = VStr (nl ++ text)%string) more.
Proof.
  intros Hres Hsec Hn Hhead. unfold showToolHelp. rewrite Hres.
  rewrite (get_not_nullish _ _ (get_section_tool _ _ Hsec)).
  rewrite Hsec. cbn [bind]. rewrite (get_not_nullish _ _ Hn). cbn [bind].
  unfold heading_of in Hhead. rewrite Hhead. cbn [ToString].
  set (doc := or_else (member tool "documentation") (VObj [])).
  assert (Hline : forall label x,
            (exists e, optional_line label x = Throw e)
            \/ optional_line label x = Return []
            \/ exists text, optional_line label x = Return [VStr (nl ++ text)%string]).
  { intros label x. unfold optional_line. destruct (truthy x); [|auto].
    destruct (ToString x) as [text|e]; simpl; eauto. }
  exists (or_else (member doc "description") (VStr "No description provided.")).
  assert (Hdesc : truthy (or_else (member doc "description")
                            (VStr "No description provided.")) = true).
  { unfold or_else. now destruct (truthy (member doc "description")) eqn:E. }
  destruct (Hline "Usage:" (member doc "usage")) as [(e & ->) | [-> | (t1 & ->)]].
  - exists []. simpl. repeat split; auto.
  - destruct (Hline "Example:" (member doc "example"))
      as [(e & ->) | [-> | (t2 & ->)]].
    + exists []. simpl. repeat split; auto.
    + exists []. simpl. repeat split; auto.
    + eexists. simpl. split; [reflexivity|]. repeat split; auto.
      repeat constructor. eauto.
  - destruct (Hline "Example:" (member doc "example"))
      as [(e & ->) | [-> | (t2 & ->)]].
    + eexists. simpl. split; [reflexivity|]. repeat split; auto.
      repeat constructor. eauto.
    + eexists. simpl. split; [reflexivity|]. repeat split; auto.
      repeat constructor. eauto.
    + eexists. simpl. split; [reflexivity|]. repeat split; auto.
      repeat constructor; eauto.
Qed.

Lemma showToolHelp_lines_witness :
  exists description more,
    fst (showToolHelp Scenarios.files "hello")
      = VStr ("=== " ++ "Example Local Tool" ++ " ===")%string
          :: description :: more
    /\ truthy description = true
    /\ (List.length more <= 2)%nat
    /\ Forall (fun line => exists text, line = VStr (nl ++ text)%string) more.
Proof.
  apply (showToolHelp_lines Scenarios.files "hello" hello_world
           (member hello_world "tool") "Example Local Tool"
           eq_refl eq_refl eq_refl eq_refl).
Defined.

End Help.

(* ------------------------------------------------------------------ *)
(** ** Text search and replacement *)
(* ------------------------------------------------------------------ *)
Section TextFacts.

Lemma append_assoc (a b c : string) : ((a ++ b) ++ c = a ++ (b ++ c))%string.
Proof. induction a as [|x a IH]; simpl; [reflexivity | now rewrite IH]. Qed.

Lemma append_nil_r (a : string) : (a ++ "" = a)%string.
Proof. induction a as [|x a IH]; simpl; [reflexivity | now rewrite IH]. Qed.

Lemma prefix_drop (pat s : string) :
  String.prefix pat s = true -> s = (pat ++ drop (String.length pat) s)%string.
Proof.
  revert s. induction pat as [|x pat IH]; intros s H; [reflexivity|].
  destruct s as [|y s]; [discriminate|]. simpl in *.
  destruct (ascii_dec x y) as [-> | ]; [|discriminate].
  now rewrite <- (IH s H).
Qed.

Lemma split_at_eq (pat s : string) :
  split_at pat s
    = if String.prefix pat s then Some (EmptyString, drop (String.length pat) s)
      else match s with
           | EmptyString => None
           | String c rest =>
               match split_at pat rest with
               | Some (before, after) => Some (String c before, after)
               | None => None
               end
           end.
Proof. destruct s; reflexivity. Qed.

Lemma split_at_sound (pat s before after : string) :
  split_at pat s = Some (before, after) ->
  s = (before ++ pat ++ after)%string.
Proof.
  revert before. induction s as [|c s IH]; intros before;
    rewrite split_at_eq.
  - destruct (String.prefix pat "") eqn:Hp; [|discriminate].
    intros [= <- <-]. now apply prefix_drop.
  - destruct (String.prefix pat (String c s)) eqn:Hp.
    + intros [= <- <-]. now apply prefix_drop.
    + destruct (split_at pat s) as [[b a]|]; [|discriminate].
      intros [= <- <-]. simpl. now rewrite <- (IH b).
Qed.

Lemma includes_app_l (pat x s : string) :
  str_includes pat s = true -> str_includes pat (x ++ s) = true.
Proof.
  intros H. induction x as [|c x IH]; [exact H|].
  unfold str_includes in *. change (String c x ++ s)%string
    with (String c (x ++ s)%string).
  rewrite split_at_eq.
  destruct (String.prefix pat (String c (x ++ s))); [reflexivity|].
  destruct (split_at pat (x ++ s)) as [[b a]|]; [reflexivity | discriminate].
Qed.

Lemma includes_app_r (pat s y : string) :
  str_includes pat s = true -> str_includes pat (s ++ y) = true.
Proof.
  unfold str_includes. induction s as [|c s IH]; rewrite split_at_eq.
  - destruct (String.prefix pat "") eqn:Hp; [|discriminate]. intros _.
    apply prefix_of_empty in Hp. subst pat.
    rewrite split_at_eq, prefix_empty. reflexivity.
  - change (String c s ++ y)%string with (String c (s ++ y)%string).
    rewrite (split_at_eq pat (String c (s ++ y))).
    destruct (String.prefix pat (String c s)) eqn:Hp.
    + intros _.
      assert (Hp' : String.prefix pat (String c (s ++ y)) = true).
      { apply (prefix_trans pat (String c s) (String c (s ++ y)) Hp).
        apply (prefix_append (String c s) y). }
      now rewrite Hp'.
    + destruct (split_at pat s) as [[b a]|]; [|discriminate]. intros _.
      destruct (String.prefix pat (String c (s ++ y))); [reflexivity|].
      specialize (IH eq_refl).
      destruct (split_at pat (s ++ y)) as [[b' a']|]; [reflexivity | discriminate].
Qed.

Lemma dollar_free_app (a b : string) :
  dollar_free (a ++ b) = dollar_free a && dollar_free b.
Proof.
  induction a as [|x a IH]; simpl; [reflexivity|].
  now rewrite IH, andb_assoc.
Qed.

Lemma expand_dollar_free (matched before after repl : string) :
  dollar_free repl = true -> expand matched before after repl = repl.
Proof.
  induction repl as [|c repl IH]; simpl; [reflexivity|].
  intros H. apply andb_true_iff in H. destruct H as (Hc & Hrest).
  apply negb_true_iff in Hc. rewrite Hc. now rewrite (IH Hrest).
Qed.

Lemma str_replace_found (s pat repl before after : string) :
  split_at pat s = Some (before, after) ->
  dollar_free repl = true ->
  str_replace s pat repl = (before ++ repl ++ after)%string.
Proof.
  intros Hsplit Hfree. unfold str_replace. rewrite Hsplit.
  now rewrite (expand_dollar_free _ _ _ _ Hfree).
Qed.

Lemma str_replace_absent (s pat repl : string) :
  split_at pat s = None -> str_replace s pat repl = s.
Proof. intros H. unfold str_replace. now rewrite H. Qed.

Lemma patched_has_tools (content marker insert : string) :
  str_includes "tools:" content = true ->
  patched content marker insert = content.
Proof. intros H. unfold patched. now rewrite H. Qed.

Lemma patched_no_tools (content marker insert : string) :
  str_includes "tools:" content = false ->
  patched content marker insert
    = str_replace content marker (marker ++ nl ++ insert)%string.
Proof. intros H. unfold patched. now rewrite H. Qed.

Lemma patched_twice (content marker insert : string) :
  dollar_free marker = true ->
  dollar_free insert = true ->
  str_includes "tools:" insert = true ->
  patched (patched content marker insert) marker insert
    = patched content marker insert.
Proof.
  intros Hm Hi Htools.
  destruct (str_includes "tools:" content) eqn:Hc.
  - rewrite (patched_has_tools content _ _ Hc).
    now apply patched_has_tools.
  - rewrite (patched_no_tools content _ _ Hc).
    destruct (split_at marker content) as [[before after]|] eqn:Hsplit.
    + assert (Hfree : dollar_free (marker ++ nl ++ insert) = true).
      { rewrite !dollar_free_app, Hm, Hi. reflexivity. }
      rewrite (str_replace_found _ _ _ _ _ Hsplit Hfree).
      apply patched_has_tools.
      apply includes_app_l, includes_app_r, includes_app_l, includes_app_l.
      exact Htools.
    + rewrite (str_replace_absent _ _ _ Hsplit).
      rewrite (patched_no_tools content _ _ Hc).
      now apply str_replace_absent.
Qed.

End TextFacts.

(* ------------------------------------------------------------------ *)
(** ** Properties of the installer *)
(* ------------------------------------------------------------------ *)
Section InstallerProperties.

(** The files after patch, whatever branch it takes. *)
Lemma patch_files (m : machine) (file marker insert content : string) :
  files m file = Some content ->
  exists m',
    patch m file marker insert = Return m'
    /\ forall p, files m' p
                 = if (p =? file)%string
                   then Some (patched content marker insert)
                   else files m p.
Proof.
  intros Hfile. unfold patch. rewrite Hfile.
  destruct (str_includes "tools:" content) eqn:Hc.
  - eexists. split; [reflexivity|]. intros p. simpl.
    destruct (String.eqb_spec p file) as [-> | ]; [|reflexivity].
    now rewrite (patched_has_tools content marker insert Hc).
  - eexists. split; [reflexivity|]. intros p. simpl.
    now rewrite (patched_no_tools content marker insert Hc).
Qed.

(** X25.  On a file without "tools:", patch puts a line break and the insert
    right after the first occurrence of the marker and leaves the rest of the
    file, and every other file, as it was (marker and insert without dollar
    signs). *)
Theorem patch_inserts_after_marker (m : machine)
    (file marker insert content before after : string) :
  files m file = Some content ->
  str_includes "tools:" content = false ->
  split_at marker content = Some (before, after) ->
  dollar_free marker = true ->
  dollar_free insert = true ->
  content = (before ++ marker ++ after)%string
  /\ exists m',
       patch m file marker insert = Return m'
       /\ files m' file = Some (before ++ marker ++ nl ++ insert ++ after)%string
       /\ forall p, p <> file -> files m' p = files m p.
Proof.
  intros Hfile Hc Hsplit Hm Hi.
  split; [now apply split_at_sound|].
  destruct (patch_files m file marker insert content Hfile) as (m' & Hp & Hfiles).
  exists m'. split; [exact Hp|]. split.
  - rewrite Hfiles, String.eqb_refl.
    rewrite (patched_no_tools content marker insert Hc).
    assert (Hfree : dollar_free (marker ++ nl ++ insert) = true).
    { rewrite !dollar_free_app, Hm, Hi. reflexivity. }
    rewrite (str_replace_found _ _ _ _ _ Hsplit Hfree).
    now rewrite !append_assoc.
  - intros p Hne. rewrite Hfiles.
    now destruct (String.eqb_spec p file).
Qed.

Lemma patch_inserts_after_marker_witness :
  let schema := ("agent:" ++ nl ++ "  dependencies:" ++ nl ++ "    - core" ++ nl)%string in
  let m := {| files := fun p => if (p =? AGENT_SCHEMA)%string then Some schema
                                else None;
              console := [] |} in
  exists m',
    patch m AGENT_SCHEMA MARKER INSERT = Return m'
    /\ files m' AGENT_SCHEMA
       = Some (("agent:" ++ nl ++ "  ") ++ MARKER ++ nl ++ INSERT
                 ++ (nl ++ "    - core" ++ nl))%string
    /\ forall p, p <> AGENT_SCHEMA -> files m' p = files m p.
Proof.
  intros schema m.
  apply (proj2 (patch_inserts_after_marker m AGENT_SCHEMA MARKER INSERT schema
                  ("agent:" ++ nl ++ "  ")%string (nl ++ "    - core" ++ nl)%string
                  eq_refl eq_refl eq_refl eq_refl eq_refl)).
Defined.

(** X26.  patch changes no file when the file already contains "tools:" or
    when the marker does not occur in it (in the second case it still rewrites
    the file with the same content and reports it as patched). *)
Theorem patch_changes_nothing (m : machine) (file marker insert content : string) :
  files m file = Some content ->
  str_includes "tools:" content = true \/ split_at marker content = None ->
  exists m',
    patch m file marker insert = Return m'
    /\ forall p, files m' p = files m p.
Proof.
  intros Hfile Hcase.
  destruct (patch_files m file marker insert content Hfile) as (m' & Hp & Hfiles).
  exists m'. split; [exact Hp|]. intros p. rewrite Hfiles.
  destruct (String.eqb_spec p file) as [-> | ]; [|reflexivity].
  rewrite Hfile. f_equal.
  destruct (str_includes "tools:" content) eqn:Hc.
  - now apply patched_has_tools.
  - destruct Hcase as [? | Hnone]; [discriminate|].
    rewrite (patched_no_tools content marker insert Hc).
    now apply str_replace_absent.
Qed.

Lemma patch_changes_nothing_witness :
  let m := {| files := fun p => if (p =? AGENT_SCHEMA)%string
                                then Some ("agent:" ++ nl ++ "  name: x" ++ nl)%string
                                else None;
              console := [] |} in
  exists m',
    patch m AGENT_SCHEMA MARKER INSERT = Return m'
    /\ forall p, files m' p = files m p.
Proof.
  intros m.
  apply (patch_changes_nothing m AGENT_SCHEMA MARKER INSERT
           ("agent:" ++ nl ++ "  name: x" ++ nl)%string eq_refl).
  right. reflexivity.
Defined.

(** X27.  patch is idempotent on the files when the insert contains "tools:"
    (marker and insert without dollar signs): a second patch of the same file
    changes nothing. *)
Theorem patch_idempotent (m : machine) (file marker insert content : string) :
  files m file = Some content ->
  dollar_free marker = true ->
  dollar_free insert = true ->
  str_includes "tools:" insert = true ->
  exists m1 m2,
    patch m file marker insert = Return m1
    /\ patch m1 file marker insert = Return m2
    /\ forall p, files m2 p = files m1 p.
Proof.
  intros Hfile Hm Hi Htools.
  destruct (patch_files m file marker insert content Hfile) as (m1 & Hp1 & Hf1).
  assert (Hfile1 : files m1 file = Some (patched content marker insert)).
  { now rewrite Hf1, String.eqb_refl. }
  destruct (patch_files m1 file marker insert _ Hfile1) as (m2 & Hp2 & Hf2).
  exists m1, m2. repeat split; try assumption.
  intros p. rewrite Hf2.
  destruct (String.eqb_spec p file) as [-> | ]; [|reflexivity].
  now rewrite Hfile1, (patched_twice content marker insert Hm Hi Htools).
Qed.

Lemma patch_idempotent_witness :
  let schema := ("agent:" ++ nl ++ "  dependencies:" ++ nl ++ "    - core" ++ nl)%string in
  let m := {| files := fun p => if (p =? AGENT_SCHEMA)%string then Some schema
                                else None;
              console := [] |} in
  exists m1 m2,
    patch m AGENT_SCHEMA MARKER INSERT = Return m1
    /\ patch m1 AGENT_SCHEMA MARKER INSERT = Return m2
    /\ forall p, files m2 p = files m1 p.
Proof.
  intros schema m.
  apply (patch_idempotent m AGENT_SCHEMA MARKER INSERT schema
           eq_refl eq_refl eq_refl eq_refl).
Defined.

End InstallerProperties.

Section ScriptProperties.
Variable trim : string -> string.
Variable texts : templates.

Ltac by_path p :=
  repeat match goal with
         | |- context [(p =? ?q)%string] =>
             destruct (String.eqb_spec p q); subst; simpl; try reflexivity
         end.

Lemma install_result (m : machine) :
  exists m',
    install trim texts m = Return m'
    /\ forall p, files m' p = installed trim texts (files m) p.
Proof.
  unfold install, write, exists_file. simpl.
  destruct (files m TOOL_REGISTRY) as [registry|] eqn:Hreg; simpl;
    rewrite ?Hreg;
    (destruct (files m AGENT_SCHEMA) as [schema|] eqn:Hschema; simpl;
     [ unfold patch; simpl; rewrite ?Hschema;
       destruct (str_includes "tools:" schema) eqn:Htools; simpl
     | ]);
    eexists; (split; [reflexivity|]); intros p; unfold installed; simpl;
    rewrite ?Hreg, ?Hschema;
    rewrite ?(patched_has_tools schema MARKER INSERT Htools),
            ?(patched_no_tools schema MARKER INSERT Htools);
    by_path p; congruence.
Qed.

(** X28.  When the script runs to its end (no file operation fails), what
    it leaves on the disk is [installed]: the eight generated files hold their
    trimmed template followed by a line break, a registry that existed keeps
    its content, an agent schema that existed is patched (one that did not is
    not created), and no other file is touched. *)
Theorem install_files (m m' : machine) :
  install trim texts m = Return m' ->
  forall p, files m' p = installed trim texts (files m) p.
Proof.
  intros Hrun p.
  destruct (install_result m) as (m1 & H1 & Hfiles).
  rewrite Hrun in H1. injection H1 as <-. apply Hfiles.
Qed.


End ScriptProperties.

Lemma install_files_witness :
  let texts := {| tool_schema := "schema"; tool_runtime := "runtime";
                  mcp_client := "client"; tool_registry := "registry: []";
                  create_tool := "builder"; hello_world_md := "tool:";
                  hello_world_js := "export"; readme := "BMAD" |} in
  let m := {| files := fun p =>
                if (p =? AGENT_SCHEMA)%string then Some "dependencies:"
                else if (p =? "notes.txt")%string then Some "kept" else None;
              console := [] |} in
  let m' := match install (fun s => s) texts m with
            | Return m' => m'
            | Throw _ => m
            end in
  install (fun s => s) texts m = Return m'
  /\ files m' TOOL_REGISTRY = Some ("registry: []" ++ nl)%string
  /\ files m' AGENT_SCHEMA = Some ("dependencies:" ++ nl ++ INSERT)%string
  /\ files m' "notes.txt" = Some "kept"
  /\ files m' "other.txt" = None.
Proof.
  intros texts m m'.
  assert (Hrun : install (fun s => s) texts m = Return m') by reflexivity.
  split; [exact Hrun|].
  split; [|split; [|split]];
    rewrite (install_files (fun s => s) texts m m' Hrun); reflexivity.
Defined.
